(** * Book search engine: catalog loader, search/filter/sort engine, pagination

    A shallow embedding of [Bibliothek/utils.py] and of the logic of
    [Bibliothek/main.py] ([SearchEngine] and the filtering, sorting and
    paging methods of [BookSearchApp]), with the properties the
    specification states about them.

    Modelling conventions.
    - A pandas [DataFrame] is a list of column labels and a list of rows,
      each row a list of cells in column order.  The row index is the
      position in the list.
    - A cell holds a Python value as [json.load] produces it; JSON numbers
      are integers here.  A key that a record lacks becomes [VNaN].
    - The dtype pandas chooses for a column is not part of a frame: a
      cell is read back as the value the file has.  pandas does so for
      strings, lists and objects; it turns a column of integers with a
      gap into floats, and what it makes of a null depends on its
      version.  The properties that read cells of a loaded frame back
      are stated for strings, lists and objects ([kept_as_is]).
    - Python exceptions are explicit: fallible code returns a [result].
      The outcome [Unmodelled] marks what this development does not
      describe: a column label that occurs more than once, a JSON document
      that is not an array of objects, unique values that are not strings,
      and sort keys that are not strings in the instances of the sorting
      routine.
    - The string primitives of Python ([str.lower], [str.strip], [str()])
      and the sorting routine behind [DataFrame.sort_values] are parameters
      with the laws they are used under; [Ascii7] has instances that run
      on ASCII data. *)

From Stdlib Require Import String Ascii List ZArith Lia Bool Arith.
From Stdlib Require Import Permutation Sorted.
Import ListNotations.
Local Open Scope string_scope.
Local Open Scope list_scope.

Set Warnings "-register-all".


(** ** Python values *)

Inductive cell : Type :=
| VNaN
| VNone
| VBool (b : bool)
| VNum (z : Z)
| VStr (s : string)
| VList (l : list cell)
| VDict (d : list (string * cell)).

(** [pd.isna] on a scalar. *)
Definition isna (c : cell) : bool :=
  match c with
  | VNaN | VNone => true
  | _ => false
  end.

(** [x if isinstance(x, list) else []] *)
Definition list_or_empty (c : cell) : list cell :=
  match c with
  | VList l => l
  | _ => []
  end.

Definition isinstance_list (c : cell) : bool :=
  match c with
  | VList _ => true
  | _ => false
  end.

(** [c == s] for a Python string [s]. *)
Definition cell_eq_str (s : string) (c : cell) : bool :=
  match c with
  | VStr t => String.eqb s t
  | _ => false
  end.

(** ** Exceptions *)

Inductive exn : Type :=
| KeyError (key : string)
| TypeError (msg : string)
| ZeroDivisionError
| FileNotFoundError
| JSONDecodeError
| OtherError (msg : string).

Inductive result (A : Type) : Type :=
| Ok (a : A)
| Raise (e : exn)
| Unmodelled.

Arguments Ok {A} a.
Arguments Raise {A} e.
Arguments Unmodelled {A}.

Definition bind {A B : Type} (r : result A) (k : A -> result B) : result B :=
  match r with
  | Ok a => k a
  | Raise e => Raise e
  | Unmodelled => Unmodelled
  end.

Notation "x <- r ;; k" := (bind r (fun x => k))
  (at level 61, r at next level, right associativity).

(** ** Python string primitives *)

(** [pat in s]: plain substring test, what [Series.str.contains] computes
    with [regex=False]. *)
Fixpoint str_in (pat s : string) : bool :=
  String.prefix pat s ||
  match s with
  | EmptyString => false
  | String _ s' => str_in pat s'
  end.

(** [str.lower], [str.strip] and [str()], with two facts about them:
    stripping the empty string gives the empty string, and [str()] of a
    string is the string. *)
Class PyStr : Type := {
  str_lower : string -> string;
  str_strip : string -> string;
  py_str : cell -> string;
  str_strip_empty : str_strip "" = "";
  py_str_VStr : forall s, py_str (VStr s) = s
}.

(** ** Data frames *)

Record DataFrame : Type := {
  columns : list string;
  rows : list (list cell)
}.

(** [pd.DataFrame()] *)
Definition empty_frame : DataFrame := {| columns := []; rows := [] |}.

(** [df.empty]: no columns or no rows. *)
Definition df_empty (d : DataFrame) : bool :=
  match columns d, rows d with
  | [], _ => true
  | _, [] => true
  | _, _ => false
  end.

Definition has_column (d : DataFrame) (name : string) : bool :=
  existsb (String.eqb name) (columns d).

(** Positions of a label among the column labels. *)
Fixpoint positions (name : string) (cols : list string) (i : nat) : list nat :=
  match cols with
  | [] => []
  | c :: cols' =>
      if String.eqb name c then i :: positions name cols' (S i)
      else positions name cols' (S i)
  end.

(** [Index.get_loc]: the position of a label that occurs once. *)
Definition get_loc (cols : list string) (name : string) : result nat :=
  match positions name cols 0 with
  | [] => Raise (KeyError name)
  | [i] => Ok i
  | _ => Unmodelled
  end.

(** [df[name]] as the list of the column's cells. *)
Definition getitem (d : DataFrame) (name : string) : result (list cell) :=
  i <- get_loc (columns d) name ;;
  Ok (map (fun r => nth i r VNaN) (rows d)).

(** One row of [df[name] = values]: the cell under the label is replaced. *)
Fixpoint assign (cols : list string) (name : string) (v : cell)
  (row : list cell) : list cell :=
  match cols, row with
  | c :: cols', x :: row' =>
      (if String.eqb name c then v else x) :: assign cols' name v row'
  | _, _ => row
  end.

(** Labels and one row after [df[name] = values]: an existing column is
    overwritten in place, a new one is appended on the right. *)
Definition set_cols (cols : list string) (name : string) : list string :=
  if existsb (String.eqb name) cols then cols else cols ++ [name].

Definition set_cell (cols : list string) (name : string) (v : cell)
  (row : list cell) : list cell :=
  if existsb (String.eqb name) cols then assign cols name v row
  else row ++ [v].

(** [df[name] = values] *)
Definition setitem (d : DataFrame) (name : string) (values : list cell)
  : DataFrame :=
  {| columns := set_cols (columns d) name;
     rows := map (fun rv => set_cell (columns d) name (snd rv) (fst rv))
               (combine (rows d) values) |}.

(** [df[mask]] for a boolean mask computed from the same frame. *)
Fixpoint select {A : Type} (mask : list bool) (l : list A) : list A :=
  match mask, l with
  | b :: mask', x :: l' => if b then x :: select mask' l' else select mask' l'
  | _, _ => []
  end.

Definition mask_rows (d : DataFrame) (mask : list bool) : DataFrame :=
  {| columns := columns d; rows := select mask (rows d) |}.

(** The cell of a row under a label. *)
Definition field (cols : list string) (row : list cell) (name : string)
  : result cell :=
  i <- get_loc cols name ;; Ok (nth i row VNaN).

(** Every row has one cell per label. *)
Definition shaped (d : DataFrame) : Prop :=
  Forall (fun r => List.length r = List.length (columns d)) (rows d).

(** Labels are pairwise distinct and every row has one cell per label. *)
Definition well_formed (d : DataFrame) : Prop :=
  NoDup (columns d) /\ shaped d.

Fixpoint distinct (l : list string) : bool :=
  match l with
  | [] => true
  | x :: l' => negb (existsb (String.eqb x) l') && distinct l'
  end.

Definition well_formedb (d : DataFrame) : bool :=
  distinct (columns d) &&
  forallb (fun r => Nat.eqb (List.length r) (List.length (columns d))) (rows d).

(** ** [SearchEngine] *)

Section Engine.
Context {P : PyStr}.

Record SearchEngine : Type := {
  df : DataFrame;
  original_df : DataFrame
}.

(** [' '.join(str(tag).lower() for tag in (tags if isinstance(tags, list) else []))] *)
Definition tags_lower (tags : cell) : string :=
  String.concat " " (map (fun tag => str_lower (py_str tag)) (list_or_empty tags)).

(** [series.astype(str).str.lower()] on one cell. *)
Definition astype_str_lower (c : cell) : string := str_lower (py_str c).

(** [SearchEngine.__init__] *)
Definition SearchEngine_init (d : DataFrame) : result SearchEngine :=
  title <- getitem d "title" ;;
  let d1 := setitem d "_title_lower" (map (fun c => VStr (astype_str_lower c)) title) in
  author <- getitem d1 "author" ;;
  let d2 := setitem d1 "_author_lower" (map (fun c => VStr (astype_str_lower c)) author) in
  tags <- getitem d2 "tags" ;;
  let d3 := setitem d2 "_tags_lower" (map (fun c => VStr (tags_lower c)) tags) in
  Ok {| df := d3; original_df := d |}.

(** [series.str.contains(query, na=False, regex=False)] on one cell. *)
Definition str_contains (query : string) (c : cell) : bool :=
  match c with
  | VStr s => str_in query s
  | _ => false
  end.

Fixpoint mask_or3 (a b c : list bool) : list bool :=
  match a, b, c with
  | x :: a', y :: b', z :: c' => (x || y || z) :: mask_or3 a' b' c'
  | _, _, _ => []
  end.

(** [SearchEngine.search_books] *)
Definition search_books (self : SearchEngine) (query : string)
  : result DataFrame :=
  if String.eqb query "" || String.eqb (str_strip query) "" then
    Ok (df self)
  else
    let query := str_strip (str_lower query) in
    t <- getitem (df self) "_title_lower" ;;
    a <- getitem (df self) "_author_lower" ;;
    g <- getitem (df self) "_tags_lower" ;;
    let mask := mask_or3 (map (str_contains query) t)
                         (map (str_contains query) a)
                         (map (str_contains query) g) in
    Ok (mask_rows (df self) mask).

(** [df[df['language'].isin(languages)]] and the like: membership of a
    cell in a list of strings. *)
Definition isin (values : list string) (c : cell) : bool :=
  existsb (fun v => cell_eq_str v c) values.

(** [SearchEngine.filter_by_language] *)
Definition filter_by_language (d : DataFrame) (languages : list string)
  : result DataFrame :=
  match languages with
  | [] => Ok d
  | _ =>
      col <- getitem d "language" ;;
      Ok (mask_rows d (map (isin languages) col))
  end.

(** [any(tag in (tag_list if isinstance(tag_list, list) else []) for tag in tags)] *)
Definition any_tag_in (tags : list string) (tag_list : cell) : bool :=
  existsb (fun tag => existsb (cell_eq_str tag) (list_or_empty tag_list)) tags.

(** [SearchEngine.filter_by_tags] *)
Definition filter_by_tags (d : DataFrame) (tags : list string)
  : result DataFrame :=
  match tags with
  | [] => Ok d
  | _ =>
      col <- getitem d "tags" ;;
      Ok (mask_rows d (map (any_tag_in tags) col))
  end.

(** [SearchEngine.filter_by_author] *)
Definition filter_by_author (d : DataFrame) (authors : list string)
  : result DataFrame :=
  match authors with
  | [] => Ok d
  | _ =>
      col <- getitem d "author" ;;
      Ok (mask_rows d (map (isin authors) col))
  end.

End Engine.

(** ** Sorting *)

(** [ndarray.argsort(kind='quicksort')] on an object array, the routine
    [sort_values] reaches with its default [kind].  On strings it returns a
    permutation of the positions that puts the keys in ascending order;
    which of two equal keys comes first is not part of the law, as pandas
    documents only [mergesort] and [stable] as stable. *)
Class ArgSort : Type := {
  argsort : list cell -> result (list nat);
  argsort_strings : forall ks : list string,
    exists p, argsort (map VStr ks) = Ok p /\
      Permutation p (seq 0 (List.length ks)) /\
      Sorted (fun i j => String.leb (nth i ks "") (nth j ks "") = true) p
}.

Section Sorting.
Context {S : ArgSort}.

(** [pandas.core.sorting.nargsort] with [na_position='last']: the keys
    that are not missing are sorted (for a descending sort reversed before
    and after), the missing ones follow in their original order. *)
Definition nargsort (items : list cell) (ascending : bool)
  : result (list nat) :=
  let idx := seq 0 (List.length items) in
  let mask := map isna items in
  let non_nans := select (map negb mask) items in
  let non_nan_idx := select (map negb mask) idx in
  let nan_idx := select mask idx in
  let non_nans := if ascending then non_nans else rev non_nans in
  let non_nan_idx := if ascending then non_nan_idx else rev non_nan_idx in
  order <- argsort non_nans ;;
  let indexer := map (fun j => nth j non_nan_idx 0%nat) order in
  let indexer := if ascending then indexer else rev indexer in
  Ok (indexer ++ nan_idx).

(** [df.take(indexer)] *)
Definition take (d : DataFrame) (indexer : list nat) : DataFrame :=
  {| columns := columns d;
     rows := map (fun i => nth i (rows d) []) indexer |}.

(** [df.sort_values(by=by, ascending=ascending, na_position='last')] *)
Definition sort_values (d : DataFrame) (by_ : string) (ascending : bool)
  : result DataFrame :=
  k <- getitem d by_ ;;
  indexer <- nargsort k ascending ;;
  Ok (take d indexer).

(** [SearchEngine.sort_books] *)
Definition sort_books (d : DataFrame) (sort_by : string) (ascending : bool)
  : result DataFrame :=
  if existsb (String.eqb sort_by) ["title"; "author"; "language"] then
    sort_values d sort_by ascending
  else Ok d.

End Sorting.

(** ** [BookSearchApp]: filtering and paging *)

Record BookSearchApp : Type := {
  app_df : DataFrame;                       (* self.df *)
  filtered_df : DataFrame;
  search_engine : option SearchEngine;
  search_var : string;
  sort_var : string;
  sort_order_var : string;
  language_vars : list (string * bool);
  selected_tags : list string;
  selected_authors : list string;
  current_page : Z;
  results_per_page : Z
}.

Definition set_filtered_df (self : BookSearchApp) (d : DataFrame)
  : BookSearchApp :=
  {| app_df := app_df self; filtered_df := d;
     search_engine := search_engine self; search_var := search_var self;
     sort_var := sort_var self; sort_order_var := sort_order_var self;
     language_vars := language_vars self;
     selected_tags := selected_tags self;
     selected_authors := selected_authors self;
     current_page := current_page self;
     results_per_page := results_per_page self |}.

Definition set_current_page (self : BookSearchApp) (page : Z)
  : BookSearchApp :=
  {| app_df := app_df self; filtered_df := filtered_df self;
     search_engine := search_engine self; search_var := search_var self;
     sort_var := sort_var self; sort_order_var := sort_order_var self;
     language_vars := language_vars self;
     selected_tags := selected_tags self;
     selected_authors := selected_authors self;
     current_page := page;
     results_per_page := results_per_page self |}.

(** [[lang for lang, var in self.language_vars.items() if var.get()]] *)
Definition selected_languages (self : BookSearchApp) : list string :=
  map fst (filter snd (language_vars self)).

Section App.
Context {P : PyStr} {S : ArgSort}.

(** [BookSearchApp.apply_filters], up to the call of [display_results]:
    the state with the new [filtered_df]. *)
Definition apply_filters (self : BookSearchApp) : result BookSearchApp :=
  match search_engine self with
  | None => Ok self
  | Some engine =>
      let result_df := app_df self in
      let search_query := search_var self in
      result_df <- (if String.eqb search_query "" then Ok result_df
                    else search_books engine search_query) ;;
      let languages := selected_languages self in
      result_df <- (match languages with
                    | [] => Ok result_df
                    | _ => filter_by_language result_df languages
                    end) ;;
      result_df <- (match selected_tags self with
                    | [] => Ok result_df
                    | _ => filter_by_tags result_df (selected_tags self)
                    end) ;;
      result_df <- (match selected_authors self with
                    | [] => Ok result_df
                    | _ => filter_by_author result_df (selected_authors self)
                    end) ;;
      let sort_by := sort_var self in
      let ascending := String.eqb (sort_order_var self) "asc" in
      result_df <- sort_books result_df sort_by ascending ;;
      Ok (set_filtered_df self result_df)
  end.

End App.

(** Python's [a // b] on integers. *)
Definition floordiv (a b : Z) : result Z :=
  if (b =? 0)%Z then Raise ZeroDivisionError else Ok (a / b)%Z.

(** A slice bound of [l[start:stop]] brought into [0 .. len(l)]. *)
Definition slice_bound (len i : Z) : Z :=
  if (i <? 0)%Z then Z.max (i + len) 0 else Z.min i len.

(** [frame.iloc[start:stop]] on the rows. *)
Definition iloc {A : Type} (l : list A) (start stop : Z) : list A :=
  let len := Z.of_nat (List.length l) in
  let a := slice_bound len start in
  let b := slice_bound len stop in
  firstn (Z.to_nat (b - a)) (skipn (Z.to_nat a) l).

(** What [display_results] shows: the rows turned into cards and the page
    count it hands to [update_pagination_controls]. *)
Record page_view : Type := {
  page_rows : list (list cell);
  total_pages : Z
}.

(** [BookSearchApp.display_results] *)
Definition display_results (self : BookSearchApp) : result page_view :=
  let total_count := Z.of_nat (List.length (rows (filtered_df self))) in
  if (total_count =? 0)%Z then
    Ok {| page_rows := []; total_pages := 0 |}
  else
    total_pages <- floordiv (total_count + results_per_page self - 1)
                     (results_per_page self) ;;
    let start_idx := (current_page self * results_per_page self)%Z in
    let end_idx := Z.min (start_idx + results_per_page self) total_count in
    let page_df := iloc (rows (filtered_df self)) start_idx end_idx in
    Ok {| page_rows := page_df; total_pages := total_pages |}.

Inductive page_label : Type :=
| ShowingAll
| PageOf (page total : Z).

Record pagination_controls : Type := {
  prev_btn : bool;
  next_btn : bool;
  label : page_label
}.

(** [BookSearchApp.update_pagination_controls] *)
Definition update_pagination_controls (self : BookSearchApp) (total_pages : Z)
  : pagination_controls :=
  if (total_pages <=? 1)%Z then
    {| prev_btn := false; next_btn := false; label := ShowingAll |}
  else
    {| prev_btn := (0 <? current_page self)%Z;
       next_btn := (current_page self <? total_pages - 1)%Z;
       label := PageOf (current_page self + 1) total_pages |}.

(** ** Loader and accessors ([utils.py]) *)

(** A JSON object as [json.load] returns it: a dict in insertion order. *)
Definition record : Type := list (string * cell).

Fixpoint lookup (key : string) (r : record) : option cell :=
  match r with
  | [] => None
  | (k, v) :: r' => if String.eqb key k then Some v else lookup key r'
  end.

(** Labels of [pd.DataFrame(data)] for a list of dicts: the keys in the
    order of their first appearance. *)
Definition add_key (seen : list string) (k : string) : list string :=
  if existsb (String.eqb k) seen then seen else seen ++ [k].

Definition frame_columns (data : list record) : list string :=
  fold_left (fun seen r => fold_left add_key (map fst r) seen) data [].

Definition record_row (cols : list string) (r : record) : list cell :=
  map (fun c => match lookup c r with Some v => v | None => VNaN end) cols.

(** [pd.DataFrame(data)] *)
Definition frame_of_records (data : list record) : DataFrame :=
  let cols := frame_columns data in
  {| columns := cols; rows := map (record_row cols) data |}.

(** The mapping passed to [df.rename(columns=...)]. *)
Definition rename_label (c : string) : string :=
  if String.eqb c "titel" then "title"
  else if String.eqb c "autor" then "author"
  else if String.eqb c "sprache" then "language"
  else if String.eqb c "schlagwörter" then "tags"
  else c.

Definition rename_columns (d : DataFrame) : DataFrame :=
  {| columns := map rename_label (columns d); rows := rows d |}.

(** [str(e)] of a caught exception. *)
Definition exn_str (e : exn) : string :=
  match e with
  | KeyError k => ("'" ++ k ++ "'")%string
  | TypeError msg => msg
  | ZeroDivisionError => "integer division or modulo by zero"
  | FileNotFoundError => "No such file or directory"
  | JSONDecodeError => "Expecting value"
  | OtherError msg => msg
  end.

(** [if 'titel' in df.columns: df = df.rename(columns=...)] *)
Definition normalize_columns (d : DataFrame) : DataFrame :=
  if has_column d "titel" then rename_columns d else d.

(** The [try] block of [load_json_data].  [read] is what [open] and
    [json.load] did: the parsed array, or the exception they raised. *)
Definition load_frame (read : result (list record)) : result DataFrame :=
  data <- read ;;
  let d := normalize_columns (frame_of_records data) in
  tags <- getitem d "tags" ;;
  Ok (setitem d "tags" (map (fun x => VList (list_or_empty x)) tags)).

(** [load_json_data]: the frame returned and the lines printed. *)
Definition load_json_data (file_path : string) (read : result (list record))
  : result (DataFrame * list string) :=
  match load_frame read with
  | Ok d => Ok (d, [])
  | Raise FileNotFoundError =>
      Ok (empty_frame, [("Error: File " ++ file_path ++ " not found.")%string])
  | Raise JSONDecodeError =>
      Ok (empty_frame, [("Error: Invalid JSON in " ++ file_path ++ ".")%string])
  | Raise e =>
      Ok (empty_frame, [("Error loading data: " ++ exn_str e)%string])
  | Unmodelled => Unmodelled
  end.

(** [sorted] on strings, by insertion. *)
Fixpoint insert_sorted (x : string) (l : list string) : list string :=
  match l with
  | [] => [x]
  | y :: l' => if String.leb x y then x :: l else y :: insert_sorted x l'
  end.

Definition sorted (l : list string) : list string :=
  fold_right insert_sorted [] l.

(** [list(set(l))] followed by [sorted] does not depend on the order the
    set is walked in; the first occurrences are kept here. *)
Fixpoint unique (l : list string) : list string :=
  match l with
  | [] => []
  | x :: l' => x :: filter (fun y => negb (String.eqb x y)) (unique l')
  end.

(** The strings of a list of cells, when all of them are strings. *)
Fixpoint strings_of (l : list cell) : result (list string) :=
  match l with
  | [] => Ok []
  | VStr s :: l' => ss <- strings_of l' ;; Ok (s :: ss)
  | _ :: _ => Unmodelled
  end.

(** [get_unique_values] *)
Definition get_unique_values (d : DataFrame) (column : string)
  : result (list string) :=
  if negb (has_column d column) then Ok []
  else if String.eqb column "tags" then
    col <- getitem d column ;;
    all_tags <- strings_of (flat_map list_or_empty col) ;;
    Ok (sorted (unique all_tags))
  else
    col <- getitem d column ;;
    values <- strings_of (filter (fun c => negb (isna c)) col) ;;
    Ok (sorted (unique values)).

(** ** Instances on ASCII data *)

Module Ascii7.

Definition lower_char (c : ascii) : ascii :=
  let n := nat_of_ascii c in
  if (65 <=? n)%nat && (n <=? 90)%nat then ascii_of_nat (n + 32) else c.

Fixpoint lower (s : string) : string :=
  match s with
  | EmptyString => EmptyString
  | String c s' => String (lower_char c) (lower s')
  end.

Definition is_space (c : ascii) : bool :=
  let n := nat_of_ascii c in
  ((9 <=? n)%nat && (n <=? 13)%nat) || ((28 <=? n)%nat && (n <=? 32)%nat).

Fixpoint lstrip (s : string) : string :=
  match s with
  | EmptyString => EmptyString
  | String c s' => if is_space c then lstrip s' else s
  end.

Fixpoint rstrip (s : string) : string :=
  match s with
  | EmptyString => EmptyString
  | String c s' =>
      match rstrip s' with
      | EmptyString => if is_space c then EmptyString else String c EmptyString
      | t => String c t
      end
  end.

Definition strip (s : string) : string := rstrip (lstrip s).

Fixpoint digits (fuel : nat) (n : N) (acc : string) : string :=
  match fuel with
  | O => acc
  | Datatypes.S fuel' =>
      let d := ascii_of_N (48 + N.modulo n 10) in
      if (n <? 10)%N then String d acc
      else digits fuel' (N.div n 10) (String d acc)
  end.

Definition str_of_Z (z : Z) : string :=
  let n := Z.to_N (Z.abs z) in
  let ds := digits (Datatypes.S (N.to_nat (N.log2 n))) n "" in
  if (z <? 0)%Z then String "-" ds else ds.

(** [str()] of a value; inside lists and dicts strings are quoted as
    [repr] does when they need no escape. *)
Fixpoint repr (quote : bool) (c : cell) : string :=
  match c with
  | VNaN => "nan"
  | VNone => "None"
  | VBool true => "True"
  | VBool false => "False"
  | VNum z => str_of_Z z
  | VStr s => if quote then ("'" ++ s ++ "'")%string else s
  | VList l => ("[" ++ String.concat ", " (map (repr true) l) ++ "]")%string
  | VDict d =>
      ("{" ++ String.concat ", "
         (map (fun kv => match kv with
                         | (k, v) => ("'" ++ k ++ "': " ++ repr true v)%string
                         end) d) ++ "}")%string
  end.

Definition ops : PyStr := {|
  str_lower := lower;
  str_strip := strip;
  py_str := repr false;
  str_strip_empty := eq_refl;
  py_str_VStr := fun _ => eq_refl
|}.

(** Positions sorted by key, by insertion; equal keys keep their order. *)
Fixpoint insert_index (key : nat -> string) (i : nat) (p : list nat)
  : list nat :=
  match p with
  | [] => [i]
  | j :: p' =>
      if String.leb (key i) (key j) then i :: p
      else j :: insert_index key i p'
  end.

Definition argsort_strings (ks : list string) : list nat :=
  fold_right (insert_index (fun i => nth i ks "")) []
    (seq 0 (List.length ks)).

(** The routine on string keys; keys that are not all strings are left
    to [Unmodelled]. *)
Definition argsort_cells (items : list cell) : result (list nat) :=
  match strings_of items with
  | Ok ks => Ok (argsort_strings ks)
  | _ => Unmodelled
  end.

(** The same with equal keys in the opposite order. *)
Fixpoint insert_index_after (key : nat -> string) (i : nat) (p : list nat)
  : list nat :=
  match p with
  | [] => [i]
  | j :: p' =>
      if String.ltb (key i) (key j) then i :: p
      else j :: insert_index_after key i p'
  end.

Definition argsort_cells_after (items : list cell) : result (list nat) :=
  match strings_of items with
  | Ok ks =>
      Ok (fold_right (insert_index_after (fun i => nth i ks "")) []
            (seq 0 (List.length ks)))
  | _ => Unmodelled
  end.

End Ascii7.

(** ** Vocabulary of the specification *)

(** The value a record has under a label ([VNaN] when there is none). *)
Definition value_of (cols : list string) (row : list cell) (name : string)
  : cell :=
  match field cols row name with
  | Ok c => c
  | _ => VNaN
  end.

(** The kinds of load failure the specification names. *)
Inductive DataLoadError : Type := NotFound | ParseError | Unknown.

(** The [except] clause an exception reaches. *)
Definition failure_kind (e : exn) : DataLoadError :=
  match e with
  | FileNotFoundError => NotFound
  | JSONDecodeError => ParseError
  | _ => Unknown
  end.

(** The line each [except] clause prints. *)
Definition failure_line (file_path : string) (e : exn) : string :=
  match failure_kind e with
  | NotFound => "Error: File " ++ file_path ++ " not found."
  | ParseError => "Error: Invalid JSON in " ++ file_path ++ "."
  | Unknown => "Error loading data: " ++ exn_str e
  end.

(** The caller of [load_json_data] can tell the kind of a failure from the
    frame it gets back. *)
Definition signals_kind_to_caller : Prop :=
  exists classify : DataFrame -> DataLoadError,
    forall file_path read e d out,
      load_frame read = Raise e ->
      load_json_data file_path read = Ok (d, out) ->
      classify d = failure_kind e.


(** The frame [load_json_data] builds before it coerces the tags. *)
Definition parsed_frame (data : list record) : DataFrame :=
  normalize_columns (frame_of_records data).

(** [x if isinstance(x, list) else []] as a cell. *)
Definition coerce_tags (x : cell) : cell := VList (list_or_empty x).

(** The rows [display_results] shows for a state. *)
Definition shown_rows (self : BookSearchApp) : list (list cell) :=
  match display_results self with
  | Ok v => page_rows v
  | _ => []
  end.

(** The state [BookSearchApp.__init__] and [load_data] leave behind for a
    catalog [d] and its engine. *)
Definition loaded_app (d : DataFrame) (engine : option SearchEngine)
  : BookSearchApp :=
  {| app_df := d; filtered_df := d; search_engine := engine;
     search_var := ""; sort_var := "title"; sort_order_var := "asc";
     language_vars := []; selected_tags := []; selected_authors := [];
     current_page := 0; results_per_page := 50 |}.

(** A sort key as the catalog's fields have it: a string or missing. *)
Definition string_or_missing (c : cell) : bool :=
  match c with
  | VNaN | VNone | VStr _ => true
  | _ => false
  end.

(** A key column in sort order: the strings ascending or descending, the
    missing keys after them. *)
Definition ordered_keys (ascending : bool) (keys : list cell) : Prop :=
  exists ks missing,
    keys = map VStr ks ++ missing /\
    forallb isna missing = true /\
    Sorted (fun a b => if ascending then String.leb a b = true
                       else String.leb b a = true) ks.

(** The examples of the specification. *)
Definition dune_catalog : DataFrame :=
  {| columns := ["title"; "author"; "language"; "tags"];
     rows := [ [VStr "Dune"; VStr "Herbert"; VStr "en"; VList [VStr "scifi"]];
               [VStr "dune guide"; VStr "X"; VStr "de"; VList [VStr "ref"]] ] |}.

(** A catalog that is not in title order. *)
Definition shelf : DataFrame :=
  {| columns := ["title"; "author"; "language"; "tags"];
     rows := [ [VStr "Walden"; VStr "Thoreau"; VStr "en"; VList [VStr "essay"]];
               [VStr "Dune"; VStr "Herbert"; VStr "en"; VList [VStr "scifi"]] ] |}.

(** A file in the canonical scheme but for one legacy key. *)
Definition mixed_file : list record :=
  [ [("title", VStr "Dune"); ("autor", VStr "Herbert");
     ("language", VStr "en"); ("tags", VList [VStr "scifi"])] ].

(** A file in the legacy scheme, one record without tags. *)
Definition legacy_file : list record :=
  [ [("titel", VStr "Dune"); ("autor", VStr "Herbert");
     ("sprache", VStr "en"); ("schlagwörter", VList [VStr "scifi"])];
    [("titel", VStr "Faust"); ("autor", VStr "Goethe");
     ("sprache", VStr "de"); ("schlagwörter", VStr "drama")];
    [("titel", VStr "Heidi"); ("autor", VStr "Spyri");
     ("sprache", VStr "de")] ].

Section SearchVocabulary.
Context {P : PyStr}.

(** The three search keys of a record of the catalog [d]: the lower-cased
    title, the lower-cased author, the space-joined lower-cased tags. *)
Definition title_key (d : DataFrame) (r : list cell) : string :=
  str_lower (py_str (value_of (columns d) r "title")).

Definition author_key (d : DataFrame) (r : list cell) : string :=
  str_lower (py_str (value_of (columns d) r "author")).

Definition tags_key (d : DataFrame) (r : list cell) : string :=
  String.concat " "
    (map (fun tag => str_lower (py_str tag))
       (list_or_empty (value_of (columns d) r "tags"))).

(** [pat] occurs in [s] as a plain substring. *)
Definition occurs_in (pat s : string) : Prop :=
  exists pre post, s = (pre ++ pat ++ post)%string.

(** The query occurs in one of the three keys. *)
Definition record_matches (d : DataFrame) (q : string) (r : list cell) : bool :=
  str_in q (title_key d r) || str_in q (author_key d r) ||
  str_in q (tags_key d r).

(** A record of the catalog as the engine keeps it, with the three derived
    columns. *)
Definition with_search_keys (d : DataFrame) (r : list cell) : list cell :=
  let c1 := set_cols (columns d) "_title_lower" in
  let c2 := set_cols c1 "_author_lower" in
  set_cell c2 "_tags_lower" (VStr (tags_key d r))
    (set_cell c1 "_author_lower" (VStr (author_key d r))
       (set_cell (columns d) "_title_lower" (VStr (title_key d r)) r)).

Definition search_columns (cols : list string) : list string :=
  set_cols (set_cols (set_cols cols "_title_lower") "_author_lower")
    "_tags_lower".

End SearchVocabulary.

Section QueryVocabulary.
Context {P : PyStr} {S : ArgSort}.

(** [self.search_engine = SearchEngine(self.df)] *)
Definition engine_of (d : DataFrame) : option SearchEngine :=
  match SearchEngine_init d with
  | Ok engine => Some engine
  | _ => None
  end.

(** The query with no search text and no selection, run on the catalog
    [d], returns the records of [d] in the order of [d]. *)
Definition empty_query_returns_catalog_order (d : DataFrame) : Prop :=
  exists self',
    apply_filters (loaded_app d (engine_of d)) = Ok self' /\
    rows (filtered_df self') = rows d.

End QueryVocabulary.

(** The state in which [display_results] pages the result set [result]. *)
Definition paging_state (result : DataFrame) (page_size page_index : Z)
  : BookSearchApp :=
  set_current_page
    {| app_df := result; filtered_df := result; search_engine := None;
       search_var := ""; sort_var := "title"; sort_order_var := "asc";
       language_vars := []; selected_tags := []; selected_authors := [];
       current_page := 0; results_per_page := page_size |}
    page_index.

(** The engine and the loaded catalogs of the examples. *)
Definition no_engine : SearchEngine :=
  {| df := empty_frame; original_df := empty_frame |}.

Definition dune_engine : SearchEngine :=
  Eval cbv in
    match SearchEngine_init (P := Ascii7.ops) dune_catalog with
    | Ok engine => engine
    | _ => no_engine
    end.

Definition legacy_catalog : DataFrame :=
  Eval cbv in
    match load_frame (Ok legacy_file) with
    | Ok d => d
    | _ => empty_frame
    end.

Definition mixed_catalog : DataFrame :=
  Eval cbv in
    match load_frame (Ok mixed_file) with
    | Ok d => d
    | _ => empty_frame
    end.

(** A search that matched nothing. *)
Definition no_results : BookSearchApp :=
  paging_state {| columns := columns dune_catalog; rows := [] |} 50 0.

Definition derived_columns : list string :=
  ["_title_lower"; "_author_lower"; "_tags_lower"].

(** ** Paging, search history and reset ([BookSearchApp]) *)

(** [BookSearchApp.prev_page]: the state it displays next. *)
Definition prev_page (self : BookSearchApp) : BookSearchApp :=
  if (0 <? current_page self)%Z then
    set_current_page self (current_page self - 1)
  else self.

(** [BookSearchApp.next_page]: the state it displays next. *)
Definition next_page (self : BookSearchApp) : result BookSearchApp :=
  total_pages <-
    floordiv (Z.of_nat (List.length (rows (filtered_df self)))
              + results_per_page self - 1) (results_per_page self) ;;
  if (current_page self <? total_pages - 1)%Z then
    Ok (set_current_page self (current_page self + 1))
  else Ok self.

(** The update of [self.search_history] in [perform_search]: a query that
    is not empty and not yet in the history is appended, and the oldest
    entry is dropped when there are more than ten. *)
Definition remember (search_history : list string) (query : string)
  : list string :=
  if negb (String.eqb query "") &&
     negb (existsb (String.eqb query) search_history) then
    let h := search_history ++ [query] in
    if (10 <? List.length h)%nat then tl h else h
  else search_history.

(** A state with the search text, the selections and the page reset, as
    [clear_filters] leaves them before it filters again. *)
Definition cleared (self : BookSearchApp) : BookSearchApp :=
  {| app_df := app_df self; filtered_df := filtered_df self;
     search_engine := search_engine self; search_var := "";
     sort_var := sort_var self; sort_order_var := sort_order_var self;
     language_vars := map (fun lv => (fst lv, false)) (language_vars self);
     selected_tags := [];
     selected_authors := [];
     current_page := 0;
     results_per_page := results_per_page self |}.

Section Session.
Context {P : PyStr} {S : ArgSort}.

(** [BookSearchApp.perform_search]: the new history and state. *)
Definition perform_search (search_history : list string)
  (self : BookSearchApp) : result (list string * BookSearchApp) :=
  let query := search_var self in
  let search_history := remember search_history query in
  self' <- apply_filters (set_current_page self 0) ;;
  Ok (search_history, self').

(** [BookSearchApp.clear_filters] *)
Definition clear_filters (self : BookSearchApp) : result BookSearchApp :=
  apply_filters (cleared self).

End Session.

(** ** Exporters ([utils.py]) *)

(** [type(x).__name__] *)
Definition type_name (c : cell) : string :=
  match c with
  | VNaN => "float"
  | VNone => "NoneType"
  | VBool _ => "bool"
  | VNum _ => "int"
  | VStr _ => "str"
  | VList _ => "list"
  | VDict _ => "dict"
  end.

Fixpoint map_result {A B : Type} (f : A -> result B) (l : list A)
  : result (list B) :=
  match l with
  | [] => Ok []
  | x :: l' => y <- f x ;; ys <- map_result f l' ;; Ok (y :: ys)
  end.

Section Exporters.
Context {P : PyStr}.

(** The items of [', '.join(x)], from the item at place [i] on: every one
    must be a string, and the first that is none raises [TypeError] with
    its place and its type. *)
Fixpoint str_items_from (i : nat) (x : list cell) : result (list string) :=
  match x with
  | [] => Ok []
  | VStr s :: x' => ss <- str_items_from (Datatypes.S i) x' ;; Ok (s :: ss)
  | c :: _ =>
      Raise (TypeError ("sequence item " ++ py_str (VNum (Z.of_nat i))
                        ++ ": expected str instance, " ++ type_name c
                        ++ " found")%string)
  end.

Definition str_items (x : list cell) : result (list string) :=
  str_items_from 0 x.

(** [', '.join(x) if isinstance(x, list) else str(x)] *)
Definition csv_tags (x : cell) : result cell :=
  match x with
  | VList l => ss <- str_items l ;; Ok (VStr (String.concat ", " ss))
  | _ => Ok (VStr (py_str x))
  end.

(** The frame [export_to_csv] hands to [to_csv]. *)
Definition csv_frame (d : DataFrame) : result DataFrame :=
  tags <- getitem d "tags" ;;
  cells <- map_result csv_tags tags ;;
  Ok (setitem d "tags" cells).

(** [export_to_csv]: the value returned and the lines printed.  [to_csv]
    is what writing the frame to the path does. *)
Definition export_to_csv (d : DataFrame) (file_path : string)
  (to_csv : DataFrame -> string -> result unit)
  : result (bool * list string) :=
  match (df_export <- csv_frame d ;; to_csv df_export file_path) with
  | Ok _ => Ok (true, [])
  | Raise e => Ok (false, [("Error exporting to CSV: " ++ exn_str e)%string])
  | Unmodelled => Unmodelled
  end.

(** [s.split(',')] *)
Fixpoint split_comma (s : string) : list string :=
  match s with
  | EmptyString => [EmptyString]
  | String c s' =>
      if Ascii.eqb c ","%char then EmptyString :: split_comma s'
      else match split_comma s' with
           | [] => [String c EmptyString]
           | h :: t => String c h :: t
           end
  end.

(** [record[key] = v] on a dict that has the key. *)
Fixpoint set_key (key : string) (v : cell) (r : record) : record :=
  match r with
  | [] => []
  | (k, x) :: r' =>
      if String.eqb key k then (k, v) :: r' else (k, x) :: set_key key v r'
  end.

(** [df.to_dict('records')] for distinct labels. *)
Definition to_dict_records (d : DataFrame) : list record :=
  map (fun r => combine (columns d) r) (rows d).

(** The loop of [export_to_json] over one record: tags held as a string
    are split at the commas and stripped. *)
Definition split_tags (r : record) : record :=
  match lookup "tags" r with
  | Some (VStr s) =>
      set_key "tags" (VList (map (fun t => VStr (str_strip t)) (split_comma s))) r
  | _ => r
  end.

(** The records [export_to_json] hands to [json.dump]. *)
Definition json_records (d : DataFrame) : result (list record) :=
  if distinct (columns d) then Ok (map split_tags (to_dict_records d))
  else Unmodelled.

(** [export_to_json]: the value returned and the lines printed.  [dump]
    is what opening the path and [json.dump] do. *)
Definition export_to_json (d : DataFrame) (file_path : string)
  (dump : list record -> string -> result unit)
  : result (bool * list string) :=
  match (records <- json_records d ;; dump records file_path) with
  | Ok _ => Ok (true, [])
  | Raise e => Ok (false, [("Error exporting to JSON: " ++ exn_str e)%string])
  | Unmodelled => Unmodelled
  end.

End Exporters.

(** ** Start-up ([BookSearchApp.__init__] and [load_data]) *)

(** The state [BookSearchApp.__init__] sets before it loads the data. *)
Definition initial_app : BookSearchApp :=
  {| app_df := empty_frame; filtered_df := empty_frame;
     search_engine := None;
     search_var := ""; sort_var := "title"; sort_order_var := "asc";
     language_vars := []; selected_tags := []; selected_authors := [];
     current_page := 0; results_per_page := 50 |}.

(** What [load_data] leaves behind: the state, the tag and author lists
    of the sidebar, the lines the loader printed, and whether the error
    box was shown. *)
Record loaded : Type := {
  state : BookSearchApp;
  all_tags : list string;
  all_authors : list string;
  printed : list string;
  error_shown : bool
}.

(** [vars[key] = BooleanVar()] on the dict of check-box variables: a new
    key goes to the end, an old one keeps its place and is unchecked. *)
Fixpoint add_var (key : string) (vars : list (string * bool))
  : list (string * bool) :=
  match vars with
  | [] => [(key, false)]
  | (k, v) :: vars' =>
      if String.eqb key k then (k, false) :: vars'
      else (k, v) :: add_var key vars'
  end.

Section LoadData.
Context {P : PyStr}.

(** [BookSearchApp.load_data] *)
Definition load_data (self : BookSearchApp) (file_path : string)
  (read : result (list record)) : result loaded :=
  r <- load_json_data file_path read ;;
  let d := fst r in
  if df_empty d then
    Ok {| state :=
            {| app_df := d; filtered_df := filtered_df self;
               search_engine := search_engine self;
               search_var := search_var self; sort_var := sort_var self;
               sort_order_var := sort_order_var self;
               language_vars := language_vars self;
               selected_tags := selected_tags self;
               selected_authors := selected_authors self;
               current_page := current_page self;
               results_per_page := results_per_page self |};
          all_tags := []; all_authors := [];
          printed := snd r; error_shown := true |}
  else
    engine <- SearchEngine_init d ;;
    languages <- get_unique_values d "language" ;;
    tags <- get_unique_values d "tags" ;;
    authors <- get_unique_values d "author" ;;
    Ok {| state :=
            {| app_df := d; filtered_df := d;
               search_engine := Some engine;
               search_var := search_var self; sort_var := sort_var self;
               sort_order_var := sort_order_var self;
               language_vars :=
                 fold_left (fun vars l => add_var l vars) languages
                   (language_vars self);
               selected_tags := selected_tags self;
               selected_authors := selected_authors self;
               current_page := current_page self;
               results_per_page := results_per_page self |};
          all_tags := sorted tags; all_authors := sorted authors;
          printed := snd r; error_shown := false |}.

End LoadData.

(** ** Vocabulary of the further properties *)

(** The frame [d] with only the rows that satisfy [p], in order. *)
Definition restrict (d : DataFrame) (p : list cell -> bool) : DataFrame :=
  {| columns := columns d; rows := filter p (rows d) |}.

(** A record passes the language, tag or author stage: nothing is
    selected, or its cell matches one of the selected values. *)
Definition language_ok (languages : list string) (cols : list string)
  (r : list cell) : bool :=
  match languages with
  | [] => true
  | _ => isin languages (value_of cols r "language")
  end.

Definition tags_ok (tags : list string) (cols : list string)
  (r : list cell) : bool :=
  match tags with
  | [] => true
  | _ => any_tag_in tags (value_of cols r "tags")
  end.

Definition author_ok (authors : list string) (cols : list string)
  (r : list cell) : bool :=
  match authors with
  | [] => true
  | _ => isin authors (value_of cols r "author")
  end.

Section PipelineVocabulary.
Context {P : PyStr}.




End PipelineVocabulary.

(** The number of pages of a state, [0] for an empty result set. *)
Definition page_count (self : BookSearchApp) : Z :=
  (Z.of_nat (List.length (rows (filtered_df self)))
   + results_per_page self - 1) / results_per_page self.

(** The default a missing key gets in a frame. *)
Definition value_or_nan (o : option cell) : cell :=
  match o with
  | Some v => v
  | None => VNaN
  end.

(** The label a key of the file gets in the loaded frame. *)
Definition file_label (data : list record) (key : string) : string :=
  if has_column (frame_of_records data) "titel" then rename_label key
  else key.

(** The text of a tag that is a string. *)
Definition tag_text (x : cell) : string :=
  match x with
  | VStr s => s
  | _ => ""
  end.

Definition is_string (x : cell) : bool :=
  match x with
  | VStr _ => true
  | _ => false
  end.

(** The tags of a record hold strings only, or are no list. *)
Definition string_tags (c : cell) : bool :=
  forallb is_string (list_or_empty c).

Section ExportVocabulary.
Context {P : PyStr}.

(** The tags cell [export_to_csv] writes: the strings of a list joined by
    a comma and a blank, [str()] of anything else. *)
Definition flat_tags (c : cell) : cell :=
  match c with
  | VList l => VStr (String.concat ", " (map tag_text l))
  | _ => VStr (py_str c)
  end.

End ExportVocabulary.

(** Further examples: a frame with missing languages, and a state with
    the search text "dune" and the language "en" checked. *)
Definition gaps : DataFrame :=
  {| columns := ["title"; "language"];
     rows := [ [VStr "Walden"; VNaN];
               [VStr "Dune"; VStr "en"];
               [VStr "Faust"; VNone];
               [VStr "Heidi"; VStr "de"] ] |}.

Definition dune_query : BookSearchApp :=
  {| app_df := dune_catalog; filtered_df := dune_catalog;
     search_engine := Some dune_engine;
     search_var := "dune"; sort_var := "title"; sort_order_var := "asc";
     language_vars := [("de", false); ("en", true)];
     selected_tags := []; selected_authors := [];
     current_page := 3; results_per_page := 50 |}.

(** A value that [pd.DataFrame] keeps as it is, whatever else its column
    holds: a string, a list or an object. *)
Definition kept_as_is (c : cell) : bool :=
  match c with
  | VStr _ | VList _ | VDict _ => true
  | _ => false
  end.

(** The same, or the NaN of a missing value. *)
Definition kept_or_missing (c : cell) : bool :=
  match c with
  | VNaN => true
  | _ => kept_as_is c
  end.




Section ResultVocabulary.
Context {P : PyStr} {S : ArgSort}.


End ResultVocabulary.

(** * Properties *)

(** ** Lists, masks and substrings *)

Lemma select_map {A B : Type} (p : A -> bool) (h : A -> B) (l : list A) :
  select (map p l) (map h l) = map h (filter p l).
Proof.
  induction l as [|x l IH]; simpl; [reflexivity|].
  destruct (p x); simpl; now rewrite IH.
Qed.

Lemma select_filter {A : Type} (p : A -> bool) (l : list A) :
  select (map p l) l = filter p l.
Proof.
  rewrite <- (map_id l) at 2. rewrite select_map. apply map_id.
Qed.

Lemma mask_or3_map {A : Type} (f g h : A -> bool) (l : list A) :
  mask_or3 (map f l) (map g l) (map h l) = map (fun x => f x || g x || h x) l.
Proof.
  induction l as [|x l IH]; simpl; [reflexivity|]. now rewrite IH.
Qed.

Lemma combine_map_r {A B : Type} (g : A -> B) (l : list A) :
  combine l (map g l) = map (fun x => (x, g x)) l.
Proof.
  induction l as [|x l IH]; simpl; [reflexivity|]. now rewrite IH.
Qed.

Lemma map_fst_combine {A B C : Type} (f : A -> C) (l : list A) (l' : list B) :
  List.length l = List.length l' ->
  map (fun xy => f (fst xy)) (combine l l') = map f l.
Proof.
  revert l'. induction l as [|x l IH]; intros [|y l'] Hlen; simpl in *;
    try discriminate; [reflexivity|].
  f_equal. apply IH. lia.
Qed.

Lemma map_snd_combine {A B : Type} (l : list A) (l' : list B) :
  List.length l = List.length l' ->
  map snd (combine l l') = l'.
Proof.
  revert l'. induction l as [|x l IH]; intros [|y l'] Hlen; simpl in *;
    try discriminate; [reflexivity|].
  f_equal. apply IH. lia.
Qed.

(** [str_in] is the substring relation. *)
Lemma prefix_app (pat s : string) :
  String.prefix pat s = true <-> exists post, s = (pat ++ post)%string.
Proof.
  revert s. induction pat as [|c pat IH]; intros s; simpl.
  - destruct s; simpl; split; eauto.
  - destruct s as [|c' s]; simpl.
    + split; [discriminate|]. intros [post H]. discriminate.
    + destruct (Ascii.ascii_dec c c') as [->|Hne].
      * rewrite IH. split; intros [post H]; exists post.
        -- now rewrite H.
        -- now inversion H.
      * split; [discriminate|]. intros [post H]. simpl in H. congruence.
Qed.

Lemma str_in_spec (pat s : string) :
  str_in pat s = true <->
  exists pre post, s = (pre ++ pat ++ post)%string.
Proof.
  induction s as [|c s IH]; cbn [str_in].
  - rewrite orb_false_r, prefix_app. split.
    + intros [post H]. now exists "", post.
    + intros [pre [post H]]. destruct pre; simpl in H; [eauto|discriminate].
  - rewrite orb_true_iff, IH, prefix_app. split.
    + intros [[post H]|[pre [post H]]].
      * now exists "", post.
      * exists (String c pre), post. simpl. now rewrite H.
    + intros [pre [post H]]. destruct pre as [|c' pre]; simpl in H.
      * left. eauto.
      * right. inversion H. eauto.
Qed.

(** ** Column lookup and assignment *)

Lemma positions_bounds name cols i p :
  In p (positions name cols i) ->
  (i <= p < i + List.length cols)%nat /\ nth (p - i) cols "" = name.
Proof.
  revert i. induction cols as [|c cols IH]; intros i Hin; simpl in *;
    [contradiction|].
  destruct (String.eqb_spec name c) as [->|Hne].
  - destruct Hin as [<-|Hin].
    + rewrite Nat.sub_diag. split; [lia|reflexivity].
    + apply IH in Hin. destruct Hin as [Hb Hn]. split; [lia|].
      replace (p - i)%nat with (Datatypes.S (p - Datatypes.S i)) by lia. exact Hn.
  - apply IH in Hin. destruct Hin as [Hb Hn]. split; [lia|].
    replace (p - i)%nat with (Datatypes.S (p - Datatypes.S i)) by lia. exact Hn.
Qed.

Lemma positions_notin name cols i :
  ~ In name cols -> positions name cols i = [].
Proof.
  revert i. induction cols as [|c cols IH]; intros i Hnin; simpl;
    [reflexivity|].
  destruct (String.eqb_spec name c) as [->|Hne].
  - exfalso. apply Hnin. now left.
  - apply IH. intros H. apply Hnin. now right.
Qed.


Lemma positions_nodup name cols i :
  NoDup cols -> In name cols ->
  exists k, positions name cols i = [(i + k)%nat] /\
            (k < List.length cols)%nat /\ nth k cols "" = name.
Proof.
  revert i. induction cols as [|c cols IH]; intros i Hnd Hin; simpl in *;
    [contradiction|].
  inversion Hnd as [|? ? Hc Hnd']; subst.
  destruct (String.eqb_spec name c) as [->|Hne].
  - exists 0%nat. rewrite positions_notin by assumption.
    rewrite Nat.add_0_r. repeat split; lia.
  - destruct Hin as [->|Hin]; [contradiction|].
    destruct (IH (Datatypes.S i) Hnd' Hin) as [k [Hp [Hk Hn]]].
    exists (Datatypes.S k). rewrite Hp. repeat split; try lia.
    + f_equal. lia.
    + exact Hn.
Qed.

Lemma positions_app name a b i :
  positions name (a ++ b) i =
  positions name a i ++ positions name b (i + List.length a).
Proof.
  revert i. induction a as [|c a IH]; intros i; simpl.
  - now rewrite Nat.add_0_r.
  - rewrite IH. replace (Datatypes.S i + List.length a)%nat
      with (i + Datatypes.S (List.length a))%nat by lia.
    now destruct (String.eqb name c).
Qed.

Lemma has_column_In d name : has_column d name = true <-> In name (columns d).
Proof.
  unfold has_column. rewrite existsb_exists. split.
  - intros [x [Hin Heq]]. apply String.eqb_eq in Heq. now subst.
  - intros Hin. exists name. split; [assumption|apply String.eqb_refl].
Qed.

Lemma existsb_eqb_In name (cols : list string) :
  existsb (String.eqb name) cols = true <-> In name cols.
Proof. apply (has_column_In {| columns := cols; rows := [] |}). Qed.

Lemma get_loc_Ok cols name i :
  get_loc cols name = Ok i ->
  (i < List.length cols)%nat /\ nth i cols "" = name.
Proof.
  unfold get_loc. intros H.
  destruct (positions name cols 0) as [|p [|q l]] eqn:Hp; try discriminate.
  inversion H; subst.
  destruct (positions_bounds name cols 0%nat i) as [Hb Hn].
  - rewrite Hp. now left.
  - rewrite Nat.sub_0_r in Hn. split; [lia|assumption].
Qed.

Lemma get_loc_In cols name :
  NoDup cols -> In name cols -> exists i, get_loc cols name = Ok i.
Proof.
  intros Hnd Hin. destruct (positions_nodup name cols 0%nat Hnd Hin) as [k [Hp _]].
  exists k. unfold get_loc. now rewrite Hp.
Qed.

Lemma get_loc_notin cols name :
  ~ In name cols -> get_loc cols name = Raise (KeyError name).
Proof. intros H. unfold get_loc. now rewrite positions_notin. Qed.


Lemma get_loc_set_cols_same cols name :
  NoDup cols ->
  exists i, get_loc (set_cols cols name) name = Ok i /\
    (if existsb (String.eqb name) cols then get_loc cols name = Ok i
     else i = List.length cols).
Proof.
  intros Hnd. unfold set_cols.
  destruct (existsb (String.eqb name) cols) eqn:Hex.
  - apply existsb_eqb_In in Hex.
    destruct (get_loc_In cols name Hnd Hex) as [i Hi]. eauto.
  - assert (Hnin : ~ In name cols).
    { intros Hin. apply existsb_eqb_In in Hin. congruence. }
    exists (List.length cols). split; [|reflexivity].
    unfold get_loc. rewrite positions_app, positions_notin by assumption.
    simpl. now rewrite String.eqb_refl.
Qed.

Lemma get_loc_set_cols_other cols name other :
  other <> name ->
  get_loc (set_cols cols name) other = get_loc cols other.
Proof.
  intros Hne. unfold set_cols.
  destruct (existsb (String.eqb name) cols); [reflexivity|].
  unfold get_loc. rewrite positions_app. simpl.
  destruct (String.eqb_spec other name); [contradiction|].
  now rewrite app_nil_r.
Qed.

Lemma length_assign cols name v row :
  List.length (assign cols name v row) = List.length row.
Proof.
  revert row. induction cols as [|c cols IH]; intros [|x row]; simpl;
    try reflexivity. now rewrite IH.
Qed.

Lemma nth_assign_same cols name v row i :
  (i < List.length cols)%nat -> (i < List.length row)%nat ->
  nth i cols "" = name ->
  nth i (assign cols name v row) VNaN = v.
Proof.
  revert row i. induction cols as [|c cols IH]; intros [|x row] [|i] Hc Hr Hn;
    simpl in *; try lia.
  - subst. now rewrite String.eqb_refl.
  - apply IH; [lia|lia|assumption].
Qed.

Lemma nth_assign_other cols name v row i :
  nth i cols "" <> name ->
  nth i (assign cols name v row) VNaN = nth i row VNaN.
Proof.
  revert row i. induction cols as [|c cols IH]; intros [|x row] [|i] Hn;
    simpl in *; try reflexivity.
  - destruct (String.eqb_spec name c); [subst; contradiction|reflexivity].
  - now apply IH.
Qed.

Lemma length_set_cell cols name v row :
  List.length row = List.length cols ->
  List.length (set_cell cols name v row) = List.length (set_cols cols name).
Proof.
  intros H. unfold set_cell, set_cols.
  destruct (existsb (String.eqb name) cols).
  - now rewrite length_assign.
  - rewrite !length_app. simpl. lia.
Qed.

Lemma NoDup_set_cols cols name : NoDup cols -> NoDup (set_cols cols name).
Proof.
  intros Hnd. unfold set_cols.
  destruct (existsb (String.eqb name) cols) eqn:Hex; [assumption|].
  apply NoDup_app; [assumption|repeat constructor; intros []|].
  intros x Hx [<-|[]]. apply existsb_eqb_In in Hx. congruence.
Qed.

Lemma rows_setitem_map d name (g : list cell -> cell) :
  rows (setitem d name (map g (rows d))) =
  map (fun r => set_cell (columns d) name (g r) r) (rows d).
Proof.
  unfold setitem. simpl. rewrite combine_map_r, map_map. reflexivity.
Qed.

Lemma shaped_setitem d name values :
  shaped d -> shaped (setitem d name values).
Proof.
  intros Hrows. unfold shaped. simpl.
  apply Forall_forall. intros r Hin. apply in_map_iff in Hin.
  destruct Hin as [[r0 v] [<- Hin]]. simpl.
  apply length_set_cell. apply in_combine_l in Hin.
  unfold shaped in Hrows. rewrite Forall_forall in Hrows. now apply Hrows.
Qed.

Lemma well_formed_setitem d name values :
  well_formed d -> well_formed (setitem d name values).
Proof.
  intros [Hnd Hrows]. split.
  - now apply NoDup_set_cols.
  - now apply shaped_setitem.
Qed.

Lemma well_formedb_spec d : well_formedb d = true -> well_formed d.
Proof.
  unfold well_formedb, well_formed, shaped. rewrite andb_true_iff.
  intros [Hd Hr]. split.
  - clear Hr. induction (columns d) as [|x l IH]; [constructor|].
    simpl in Hd. apply andb_true_iff in Hd. destruct Hd as [Hx Hl].
    constructor; [|now apply IH].
    intros Hin. apply existsb_eqb_In in Hin. rewrite Hin in Hx. discriminate.
  - apply Forall_forall. intros r Hin.
    rewrite forallb_forall in Hr. apply Nat.eqb_eq. now apply Hr.
Qed.

Lemma nth_set_cell_same cols name v row i :
  List.length row = List.length cols ->
  get_loc (set_cols cols name) name = Ok i ->
  nth i (set_cell cols name v row) VNaN = v.
Proof.
  intros Hlen Hi. unfold set_cell. unfold set_cols in Hi.
  destruct (existsb (String.eqb name) cols) eqn:Hex.
  - apply get_loc_Ok in Hi. destruct Hi as [Hb Hn].
    apply nth_assign_same; [assumption|lia|assumption].
  - assert (Hnin : ~ In name cols).
    { intros Hin. apply existsb_eqb_In in Hin. congruence. }
    unfold get_loc in Hi.
    rewrite positions_app, positions_notin in Hi by assumption.
    simpl in Hi. rewrite String.eqb_refl in Hi. inversion Hi.
    rewrite <- Hlen. apply nth_middle.
Qed.

Lemma nth_set_cell_other cols name other v row i :
  List.length row = List.length cols -> other <> name ->
  get_loc cols other = Ok i ->
  nth i (set_cell cols name v row) VNaN = nth i row VNaN.
Proof.
  intros Hlen Hne Hi. apply get_loc_Ok in Hi. destruct Hi as [Hb Hn].
  unfold set_cell. destruct (existsb (String.eqb name) cols).
  - apply nth_assign_other. congruence.
  - apply app_nth1. lia.
Qed.

Lemma getitem_setitem_unique d name values i :
  shaped d -> List.length values = List.length (rows d) ->
  get_loc (set_cols (columns d) name) name = Ok i ->
  getitem (setitem d name values) name = Ok values.
Proof.
  intros Hrows Hlen Hi. unfold getitem. simpl.
  rewrite Hi. simpl. f_equal. rewrite map_map.
  rewrite <- (map_snd_combine (rows d) values) at 2 by lia.
  apply map_ext_in. intros [r v] Hin. simpl.
  apply nth_set_cell_same; try assumption.
  apply in_combine_l in Hin. unfold shaped in Hrows.
  rewrite Forall_forall in Hrows. now apply Hrows.
Qed.

Lemma getitem_setitem_same d name values :
  well_formed d -> List.length values = List.length (rows d) ->
  getitem (setitem d name values) name = Ok values.
Proof.
  intros [Hnd Hrows] Hlen.
  destruct (get_loc_set_cols_same (columns d) name Hnd) as [i [Hi _]].
  now apply getitem_setitem_unique with (i := i).
Qed.

Lemma getitem_setitem_other d name other values :
  shaped d -> List.length values = List.length (rows d) ->
  other <> name ->
  getitem (setitem d name values) other = getitem d other.
Proof.
  intros Hrows Hlen Hne. unfold getitem. simpl.
  rewrite get_loc_set_cols_other by assumption.
  destruct (get_loc (columns d) other) as [i| |] eqn:Hi; simpl;
    try reflexivity.
  f_equal. rewrite map_map.
  rewrite <- (map_fst_combine (fun r => nth i r VNaN) (rows d) values)
    by lia.
  apply map_ext_in. intros [r v] Hin. simpl.
  apply nth_set_cell_other with (other := other); try assumption.
  apply in_combine_l in Hin. unfold shaped in Hrows.
  rewrite Forall_forall in Hrows. now apply Hrows.
Qed.

Lemma getitem_length d name col :
  getitem d name = Ok col -> List.length col = List.length (rows d).
Proof.
  unfold getitem. destruct (get_loc (columns d) name); simpl; try discriminate.
  intros H. inversion H. apply length_map.
Qed.

Lemma getitem_field d name col :
  getitem d name = Ok col ->
  col = map (fun r => value_of (columns d) r name) (rows d).
Proof.
  unfold getitem, value_of, field.
  destruct (get_loc (columns d) name); simpl; try discriminate.
  intros H. now inversion H.
Qed.

Lemma length_rows_setitem d name values :
  List.length values = List.length (rows d) ->
  List.length (rows (setitem d name values)) = List.length (rows d).
Proof.
  intros H. unfold setitem. simpl. rewrite length_map, length_combine. lia.
Qed.

Lemma rows_setitem_over d name (k : list cell -> list cell)
  (g : list cell -> cell) (l : list (list cell)) :
  rows d = map k l ->
  rows (setitem d name (map g l)) =
  map (fun r => set_cell (columns d) name (g r) (k r)) l.
Proof.
  intros Hrows. unfold setitem. simpl. rewrite Hrows. clear Hrows.
  induction l as [|x l IH]; simpl; [reflexivity|]. now rewrite IH.
Qed.

(** ** The engine's catalog *)

Section EngineFacts.
Context {P : PyStr}.

(** What [SearchEngine.__init__] builds from a well-formed frame: the
    catalog's records in order, each with its three search keys. *)
Lemma SearchEngine_init_spec d E :
  well_formed d -> SearchEngine_init d = Ok E ->
  original_df E = d /\
  well_formed (df E) /\
  columns (df E) = search_columns (columns d) /\
  rows (df E) = map (with_search_keys d) (rows d) /\
  getitem (df E) "_title_lower" = Ok (map (fun r => VStr (title_key d r)) (rows d)) /\
  getitem (df E) "_author_lower" = Ok (map (fun r => VStr (author_key d r)) (rows d)) /\
  getitem (df E) "_tags_lower" = Ok (map (fun r => VStr (tags_key d r)) (rows d)).
Proof.
  intros Hwf. unfold SearchEngine_init.
  destruct (getitem d "title") as [title| |] eqn:Ht; simpl; try discriminate.
  pose proof (getitem_field d "title" title Ht) as Etitle.
  set (T := map (fun c => VStr (astype_str_lower c)) title).
  assert (ET : T = map (fun r => VStr (title_key d r)) (rows d)).
  { unfold T. rewrite Etitle, map_map. reflexivity. }
  assert (LT : List.length T = List.length (rows d)).
  { rewrite ET. apply length_map. }
  set (d1 := setitem d "_title_lower" T).
  assert (Hwf1 : well_formed d1) by (now apply well_formed_setitem).
  assert (Hs : shaped d) by apply Hwf.
  assert (Hs1 : shaped d1) by apply Hwf1.
  assert (Hr1 : List.length (rows d1) = List.length (rows d)).
  { now apply length_rows_setitem. }
  assert (Ha1 : getitem d1 "author" = getitem d "author").
  { apply getitem_setitem_other; [assumption|assumption|discriminate]. }
  rewrite Ha1.
  destruct (getitem d "author") as [author| |] eqn:Ha; simpl; try discriminate.
  pose proof (getitem_field d "author" author Ha) as Eauthor.
  set (A := map (fun c => VStr (astype_str_lower c)) author).
  assert (EA : A = map (fun r => VStr (author_key d r)) (rows d)).
  { unfold A. rewrite Eauthor, map_map. reflexivity. }
  assert (LA : List.length A = List.length (rows d1)).
  { rewrite EA, length_map. lia. }
  set (d2 := setitem d1 "_author_lower" A).
  assert (Hwf2 : well_formed d2) by (now apply well_formed_setitem).
  assert (Hs2 : shaped d2) by apply Hwf2.
  assert (Hr2 : List.length (rows d2) = List.length (rows d)).
  { unfold d2. rewrite length_rows_setitem; assumption. }
  assert (Hg2 : getitem d2 "tags" = getitem d "tags").
  { unfold d2. rewrite getitem_setitem_other;
      [|assumption|assumption|discriminate].
    apply getitem_setitem_other; [assumption|assumption|discriminate]. }
  rewrite Hg2.
  destruct (getitem d "tags") as [tags| |] eqn:Hg; simpl; try discriminate.
  pose proof (getitem_field d "tags" tags Hg) as Etags.
  set (G := map (fun c => VStr (tags_lower c)) tags).
  assert (EG : G = map (fun r => VStr (tags_key d r)) (rows d)).
  { unfold G. rewrite Etags, map_map. reflexivity. }
  assert (LG : List.length G = List.length (rows d2)).
  { rewrite EG, length_map. lia. }
  intros H. inversion H; subst E; clear H. cbn [df original_df].
  fold d1 A d2 G.
  split; [reflexivity|].
  split; [now apply well_formed_setitem|].
  split; [reflexivity|].
  split.
  - rewrite EG. rewrite rows_setitem_over
      with (k := fun r => set_cell (set_cols (columns d) "_title_lower")
                   "_author_lower" (VStr (author_key d r))
                   (set_cell (columns d) "_title_lower"
                      (VStr (title_key d r)) r)).
    + reflexivity.
    + unfold d2. rewrite EA.
      rewrite rows_setitem_over
        with (k := fun r => set_cell (columns d) "_title_lower"
                     (VStr (title_key d r)) r).
      * reflexivity.
      * unfold d1. rewrite ET.
        rewrite rows_setitem_over with (k := fun r => r).
        -- reflexivity.
        -- symmetry. apply map_id.
  - split; [|split].
    + rewrite getitem_setitem_other; [|assumption|assumption|discriminate].
      unfold d2.
      rewrite getitem_setitem_other; [|assumption|assumption|discriminate].
      unfold d1. rewrite getitem_setitem_same by assumption.
      now rewrite ET.
    + rewrite getitem_setitem_other; [|assumption|assumption|discriminate].
      unfold d2. rewrite getitem_setitem_same by assumption.
      now rewrite EA.
    + rewrite getitem_setitem_same by assumption. now rewrite EG.
Qed.

End EngineFacts.

Section TextSearch.
Context {P : PyStr}.

Lemma record_matches_spec d q r :
  record_matches d q r = true <->
  occurs_in q (title_key d r) \/ occurs_in q (author_key d r) \/
  occurs_in q (tags_key d r).
Proof.
  unfold record_matches, occurs_in.
  rewrite !orb_true_iff, !str_in_spec. tauto.
Qed.

(** The keys of a record can be read back from its engine row. *)
Lemma search_keys_readback d E r :
  well_formed d -> SearchEngine_init d = Ok E -> In r (rows d) ->
  value_of (columns (df E)) (with_search_keys d r) "_title_lower"
    = VStr (title_key d r) /\
  value_of (columns (df E)) (with_search_keys d r) "_author_lower"
    = VStr (author_key d r) /\
  value_of (columns (df E)) (with_search_keys d r) "_tags_lower"
    = VStr (tags_key d r).
Proof.
  intros Hwf Hinit Hin.
  destruct (SearchEngine_init_spec d E Hwf Hinit)
    as [_ [_ [_ [Hrows [Ht [Ha Hg]]]]]].
  apply getitem_field in Ht, Ha, Hg.
  rewrite Hrows, map_map in Ht, Ha, Hg.
  rewrite map_ext_in_iff in Ht. rewrite map_ext_in_iff in Ha.
  rewrite map_ext_in_iff in Hg.
  repeat split; symmetry.
  - exact (Ht r Hin).
  - exact (Ha r Hin).
  - exact (Hg r Hin).
Qed.

Lemma search_books_rows d E q :
  well_formed d -> SearchEngine_init d = Ok E ->
  str_strip q <> "" ->
  search_books E q =
  Ok {| columns := columns (df E);
        rows := map (with_search_keys d)
                  (filter (record_matches d (str_strip (str_lower q)))
                     (rows d)) |}.
Proof.
  intros Hwf Hinit Hq.
  destruct (SearchEngine_init_spec d E Hwf Hinit)
    as [_ [_ [_ [Hrows [Ht [Ha Hg]]]]]].
  unfold search_books.
  assert (Hne : q <> "").
  { intros ->. apply Hq. apply str_strip_empty. }
  apply String.eqb_neq in Hne, Hq. rewrite Hne, Hq. simpl.
  rewrite Ht, Ha, Hg. simpl. unfold mask_rows. f_equal. f_equal.
  rewrite Hrows, !map_map. simpl.
  rewrite mask_or3_map. apply select_map.
Qed.

(** C1.  For a query that is not empty after trimming, the text search
    returns exactly the records of the catalog, in catalog order, whose
    lower-cased title, lower-cased author or space-joined lower-cased tags
    contain the lower-cased, trimmed query as a plain substring; a record
    that is not returned contains it in none of the three. *)
Theorem search_books_plain_substring d E q :
  well_formed d -> SearchEngine_init d = Ok E ->
  str_strip q <> "" ->
  let q' := str_strip (str_lower q) in
  exists res,
    search_books E q = Ok res /\
    rows res = map (with_search_keys d)
                 (filter (record_matches d q') (rows d)) /\
    (forall r, record_matches d q' r = true <->
       occurs_in q' (title_key d r) \/ occurs_in q' (author_key d r) \/
       occurs_in q' (tags_key d r)) /\
    (forall r, In r (rows d) ->
       (In (with_search_keys d r) (rows res) <->
        occurs_in q' (title_key d r) \/ occurs_in q' (author_key d r) \/
        occurs_in q' (tags_key d r))).
Proof.
  intros Hwf Hinit Hq q'.
  eexists. split; [apply (search_books_rows d E q Hwf Hinit Hq)|].
  cbn [rows]. fold q'. split; [reflexivity|].
  split; [intros r; apply record_matches_spec|].
  intros r Hin. rewrite <- record_matches_spec, in_map_iff. split.
  - intros [r' [Heq Hin']]. apply filter_In in Hin'.
    destruct Hin' as [Hin' Hm].
    destruct (search_keys_readback d E r Hwf Hinit Hin) as [Et [Ea Eg]].
    destruct (search_keys_readback d E r' Hwf Hinit Hin') as [Et' [Ea' Eg']].
    rewrite Heq in Et', Ea', Eg'.
    unfold record_matches in *.
    assert (title_key d r' = title_key d r) as <- by congruence.
    assert (author_key d r' = author_key d r) as <- by congruence.
    assert (tags_key d r' = tags_key d r) as <- by congruence.
    exact Hm.
  - intros Hm. exists r. split; [reflexivity|].
    apply filter_In. now split.
Qed.

End TextSearch.

(** ** The loader *)

Lemma shaped_frame_of_records data : shaped (frame_of_records data).
Proof.
  unfold shaped, frame_of_records. simpl. apply Forall_forall.
  intros r Hin. apply in_map_iff in Hin. destruct Hin as [r0 [<- _]].
  unfold record_row. apply length_map.
Qed.

Lemma shaped_parsed_frame data : shaped (parsed_frame data).
Proof.
  unfold parsed_frame, normalize_columns.
  pose proof (shaped_frame_of_records data) as H.
  destruct (has_column (frame_of_records data) "titel"); [|assumption].
  unfold shaped in *. simpl. now rewrite length_map.
Qed.

Lemma rows_parsed_frame data :
  rows (parsed_frame data) = rows (frame_of_records data).
Proof.
  unfold parsed_frame, normalize_columns.
  now destruct (has_column (frame_of_records data) "titel").
Qed.

Lemma getitem_has_column d name col :
  getitem d name = Ok col -> has_column d name = true.
Proof.
  unfold getitem. destruct (get_loc (columns d) name) as [i| |] eqn:Hi;
    simpl; try discriminate.
  intros _. apply get_loc_Ok in Hi. destruct Hi as [Hb Hn].
  apply has_column_In. rewrite <- Hn. now apply nth_In.
Qed.

(** A load that succeeds went through every step of the [try] block. *)
Lemma load_frame_Ok read d :
  load_frame read = Ok d ->
  exists data tags,
    read = Ok data /\
    getitem (parsed_frame data) "tags" = Ok tags /\
    d = setitem (parsed_frame data) "tags" (map coerce_tags tags).
Proof.
  unfold load_frame. destruct read as [data| |]; simpl; try discriminate.
  fold (parsed_frame data).
  destruct (getitem (parsed_frame data) "tags") as [tags| |] eqn:Hg; simpl;
    try discriminate.
  intros H. inversion H. now exists data, tags.
Qed.

Lemma columns_setitem_present d name values col :
  getitem d name = Ok col -> columns (setitem d name values) = columns d.
Proof.
  intros Hg. apply getitem_has_column in Hg. unfold has_column in Hg.
  simpl. unfold set_cols. now rewrite Hg.
Qed.

Lemma load_frame_tags read d :
  load_frame read = Ok d ->
  exists data tags,
    read = Ok data /\
    getitem (parsed_frame data) "tags" = Ok tags /\
    columns d = columns (parsed_frame data) /\
    getitem d "tags" = Ok (map coerce_tags tags).
Proof.
  intros H. destruct (load_frame_Ok read d H) as [data [tags [Hr [Hg Hd]]]].
  exists data, tags. repeat split; try assumption.
  - subst d. now apply columns_setitem_present with (col := tags).
  - subst d. unfold getitem in Hg.
    destruct (get_loc (columns (parsed_frame data)) "tags") as [i| |] eqn:Hi;
      simpl in Hg; try discriminate.
    apply getitem_setitem_unique with (i := i).
    + apply shaped_parsed_frame.
    + inversion Hg. now rewrite !length_map.
    + unfold set_cols.
      assert (Hin : existsb (String.eqb "tags") (columns (parsed_frame data)) = true).
      { apply existsb_eqb_In. apply get_loc_Ok in Hi. destruct Hi as [Hb Hn].
        rewrite <- Hn. now apply nth_In. }
      now rewrite Hin.
Qed.

Lemma load_json_data_cases file_path read :
  match load_frame read with
  | Ok d => load_json_data file_path read = Ok (d, [])
  | Raise e =>
      load_json_data file_path read =
      Ok (empty_frame, [failure_line file_path e])
  | Unmodelled => load_json_data file_path read = Unmodelled
  end.
Proof.
  unfold load_json_data. destruct (load_frame read) as [d|e|];
    try reflexivity.
  now destruct e.
Qed.

(** C5, as the code has it.  When the file is missing, the JSON is
    malformed or anything else fails in the loader, [load_json_data]
    returns the empty catalog, prints one line that names the kind of
    failure, and raises nothing; the frame it returns is the same for
    every kind, and [df.empty] tells the caller that the load failed. *)
Theorem load_failure_empty_catalog file_path read :
  (forall e, load_json_data file_path read <> Raise e) /\
  (forall e, load_frame read = Raise e ->
     load_json_data file_path read =
       Ok (empty_frame, [failure_line file_path e]) /\
     df_empty empty_frame = true) /\
  (forall d out, load_json_data file_path read = Ok (d, out) ->
     (df_empty d = true <-> exists e, load_frame read = Raise e)) /\
  load_json_data file_path (Raise FileNotFoundError) =
    Ok (empty_frame, [("Error: File " ++ file_path ++ " not found.")%string]) /\
  load_json_data file_path (Raise JSONDecodeError) =
    Ok (empty_frame, [("Error: Invalid JSON in " ++ file_path ++ ".")%string]) /\
  (forall msg, load_json_data file_path (Raise (OtherError msg)) =
    Ok (empty_frame, [("Error loading data: " ++ msg)%string])).
Proof.
  pose proof (load_json_data_cases file_path read) as Hc.
  split; [|split; [|split]].
  - intros e. destruct (load_frame read); rewrite Hc; discriminate.
  - intros e He. rewrite He in Hc. now split.
  - intros d out Hl. destruct (load_frame read) as [d'|e|] eqn:Hf.
    + rewrite Hc in Hl. inversion Hl; subst d' out. split.
      * intros Hempty. exfalso.
        destruct (load_frame_tags read d Hf)
          as [data [tags [Hr [Hg [Hcols Hgd]]]]].
        pose proof (getitem_has_column _ _ _ Hgd) as Hhas.
        apply has_column_In in Hhas.
        pose proof (getitem_length _ _ _ Hgd) as Hlen.
        pose proof (getitem_length _ _ _ Hg) as Hlen0.
        rewrite length_map in Hlen.
        rewrite rows_parsed_frame in Hlen0.
        unfold frame_of_records in Hlen0. simpl in Hlen0.
        rewrite length_map in Hlen0.
        unfold df_empty in Hempty.
        destruct (columns d) as [|c cs]; [contradiction|].
        destruct (rows d) as [|r rs]; [|discriminate].
        simpl in Hlen. destruct tags; [|discriminate].
        simpl in Hlen0. destruct data; [|discriminate].
        unfold parsed_frame, normalize_columns, frame_of_records in Hcols.
        simpl in Hcols. discriminate.
      * intros [e He]. discriminate.
    + rewrite Hc in Hl. inversion Hl; subst. split; [eauto|reflexivity].
    + rewrite Hc in Hl. discriminate.
  - repeat split; reflexivity.
Qed.

(** C5, as the claim has it, fails: the frame returned after a missing
    file and after malformed JSON is the same, so no reading of it gives
    the kind. *)
Lemma load_failure_kind_not_returned : ~ signals_kind_to_caller.
Proof.
  intros [classify H].
  pose proof (H "booklist.json" (Raise FileNotFoundError) FileNotFoundError
                empty_frame _ eq_refl eq_refl) as H1.
  pose proof (H "booklist.json" (Raise JSONDecodeError) JSONDecodeError
                empty_frame _ eq_refl eq_refl) as H2.
  simpl in H1, H2. congruence.
Qed.






(** C10.  For a field that is no column of the catalog,
    [get_unique_values] returns the empty list and raises nothing. *)
Theorem get_unique_values_unknown_column d column :
  ~ In column (columns d) -> get_unique_values d column = Ok [].
Proof.
  intros Hnin. unfold get_unique_values.
  destruct (has_column d column) eqn:Hh; [|reflexivity].
  apply has_column_In in Hh. contradiction.
Qed.

(** ** Pagination *)

Lemma floordiv_ceiling (t p : Z) :
  (0 < p)%Z ->
  (((t + p - 1) / p - 1) * p < t <= (t + p - 1) / p * p)%Z.
Proof.
  intros Hp.
  pose proof (Z.mul_div_le (t + p - 1) p Hp).
  pose proof (Z.mul_succ_div_gt (t + p - 1) p Hp).
  nia.
Qed.

(** C3, as the code has it.  For a positive page size the page count is
    the ceiling of [total / pageSize]: [0] for an empty result set, at
    least [1] otherwise; the pagination controls present every count up to
    [1] as one page. *)
Theorem total_pages_is_ceiling self :
  (0 < results_per_page self)%Z ->
  let total := Z.of_nat (List.length (rows (filtered_df self))) in
  exists v,
    display_results self = Ok v /\
    ((total_pages v - 1) * results_per_page self < total
       <= total_pages v * results_per_page self)%Z /\
    (total = 0%Z -> total_pages v = 0%Z) /\
    ((0 < total)%Z -> (1 <= total_pages v)%Z) /\
    ((total_pages v <= 1)%Z ->
       label (update_pagination_controls self (total_pages v)) = ShowingAll).
Proof.
  intros Hp total. unfold display_results. fold total.
  destruct (Z.eqb_spec total 0) as [H0|H0].
  - eexists. split; [reflexivity|]. cbn [total_pages page_rows].
    rewrite H0. repeat split; try lia. 
  - unfold floordiv. destruct (Z.eqb_spec (results_per_page self) 0); [lia|].
    simpl. eexists. split; [reflexivity|]. cbn [total_pages page_rows].
    pose proof (floordiv_ceiling total (results_per_page self) Hp) as Hc.
    assert (0 <= total)%Z by (unfold total; lia).
    split; [exact Hc|]. split; [intros; contradiction|]. split.
    + intros Hpos.
      destruct (Z.le_gt_cases 1 ((total + results_per_page self - 1) /
                                   results_per_page self)); [assumption|nia].
    + intros Hle. unfold update_pagination_controls.
      destruct (Z.leb_spec ((total + results_per_page self - 1) /
                              results_per_page self) 1); [reflexivity|lia].
Qed.

Lemma concat_chunks {A : Type} (k m : nat) (l : list A) :
  (List.length l <= m * k)%nat ->
  List.concat (map (fun i => firstn k (skipn (i * k) l)) (seq 0 m)) = l.
Proof.
  revert l. induction m as [|m IH]; intros l Hlen.
  - simpl in *. destruct l; [reflexivity|simpl in Hlen; lia].
  - cbn [seq map List.concat]. rewrite <- seq_shift, map_map.
    transitivity (firstn k l ++ skipn k l); [|apply firstn_skipn].
    f_equal. etransitivity; [|apply (IH (skipn k l))].
    + f_equal. apply map_ext. intros i. rewrite skipn_skipn.
      f_equal. f_equal. lia.
    + rewrite length_skipn. lia.
Qed.

Lemma iloc_page {A : Type} (l : list A) (i p : Z) :
  (0 <= i)%Z -> (0 < p)%Z ->
  iloc l (i * p) (Z.min (i * p + p) (Z.of_nat (List.length l))) =
  firstn (Z.to_nat p) (skipn (Z.to_nat (i * p)) l).
Proof.
  intros Hi Hp. unfold iloc, slice_bound.
  set (len := Z.of_nat (List.length l)).
  assert (0 <= i * p)%Z by nia.
  destruct (Z.ltb_spec (i * p) 0); [lia|].
  destruct (Z.ltb_spec (Z.min (i * p + p) len) 0); [unfold len in *; lia|].
  destruct (Z.le_gt_cases (i * p) len) as [Hle|Hgt].
  - rewrite (Z.min_l (i * p) len) by lia.
    rewrite Z.min_l by lia.
    destruct (Z.le_gt_cases (i * p + p) len) as [Hle'|Hgt'].
    + rewrite Z.min_l by lia. f_equal. lia.
    + rewrite Z.min_r by lia.
      rewrite !firstn_all2; try reflexivity;
        rewrite length_skipn; unfold len in *; lia.
  - rewrite (Z.min_r (i * p) len) by lia.
    rewrite !skipn_all2 by (unfold len in *; lia).
    now rewrite !firstn_nil.
Qed.

(** C4.  For a positive page size, the pages [0 .. totalPages-1] in order
    make up the result set again, nothing lost and nothing twice; five
    records in pages of two give, at page index 2, the fifth record alone
    and three pages. *)
Theorem pages_concat_roundtrip self :
  (0 < results_per_page self)%Z ->
  (exists n,
     (forall i, exists page,
        display_results (set_current_page self i) =
        Ok {| page_rows := page; total_pages := n |}) /\
     List.concat
       (map (fun i => shown_rows (set_current_page self (Z.of_nat i)))
          (seq 0 (Z.to_nat n))) = rows (filtered_df self)) /\
  (forall s5 a b c d e,
     rows (filtered_df s5) = [a; b; c; d; e] ->
     results_per_page s5 = 2%Z -> current_page s5 = 2%Z ->
     display_results s5 = Ok {| page_rows := [e]; total_pages := 3 |}).
Proof.
  intros Hp. split.
  - set (l := rows (filtered_df self)).
    set (p := results_per_page self) in *.
    set (total := Z.of_nat (List.length l)).
    destruct (Z.eqb_spec total 0) as [H0|H0].
    + exists 0%Z. split.
      * intros i. exists []. unfold display_results. cbn [filtered_df set_current_page].
        fold l total. rewrite H0. reflexivity.
      * simpl. unfold total in H0. destruct l; [reflexivity|simpl in H0; lia].
    + exists ((total + p - 1) / p)%Z.
      assert (Hd : forall i, display_results (set_current_page self i) =
                Ok {| page_rows := iloc l (i * p) (Z.min (i * p + p) total);
                      total_pages := ((total + p - 1) / p)%Z |}).
      { intros i. unfold display_results.
        cbn [filtered_df set_current_page results_per_page current_page].
        fold l total p.
        destruct (Z.eqb_spec total 0); [contradiction|].
        unfold floordiv. destruct (Z.eqb_spec p 0); [lia|]. reflexivity. }
      split; [intros i; eexists; apply Hd|].
      pose proof (floordiv_ceiling total p Hp) as Hc.
      assert (0 <= total)%Z by (unfold total; lia).
      etransitivity;
        [|apply (concat_chunks (Z.to_nat p)
                   (Z.to_nat ((total + p - 1) / p)) l)].
      * f_equal. apply map_ext. intros i. unfold shown_rows. rewrite Hd.
        cbn [page_rows]. unfold total. rewrite iloc_page by lia.
        f_equal. f_equal. rewrite Z2Nat.inj_mul by lia. now rewrite Nat2Z.id.
      * assert (0 <= (total + p - 1) / p)%Z by (apply Z.div_pos; lia).
        unfold total in *. nia.
  - intros s5 a b c d e Hr Hps Hcp. unfold display_results.
    rewrite Hr, Hps, Hcp. reflexivity.
Qed.

(** ** Sorting *)

Lemma length_select_same {A B : Type} (m : list bool) (l : list A)
  (l' : list B) :
  List.length l = List.length l' ->
  List.length (select m l) = List.length (select m l').
Proof.
  revert l l'. induction m as [|b m IH]; intros [|x l] [|y l'] H;
    simpl in *; try reflexivity; try discriminate.
  destruct b; simpl; [f_equal|]; apply IH; lia.
Qed.

Lemma select_partition {A : Type} (m : list bool) (l : list A) :
  List.length m = List.length l ->
  Permutation (select (map negb m) l ++ select m l) l.
Proof.
  revert l. induction m as [|b m IH]; intros [|x l] H; simpl in *;
    try discriminate; [constructor|].
  assert (Hl : List.length m = List.length l) by lia.
  destruct b; simpl.
  - apply Permutation_sym, Permutation_cons_app, Permutation_sym, IH, Hl.
  - constructor. apply IH, Hl.
Qed.

Lemma select_commutes_map {A B : Type} (f : A -> B) (m : list bool)
  (l : list A) :
  select m (map f l) = map f (select m l).
Proof.
  revert l. induction m as [|b m IH]; intros [|x l]; simpl;
    try reflexivity.
  destruct b; simpl; now rewrite IH.
Qed.

Lemma Sorted_by_key {A B : Type} (R : B -> B -> Prop) (f : A -> B)
  (l : list A) :
  Sorted (fun a b => R (f a) (f b)) l -> Sorted R (map f l).
Proof.
  induction 1 as [|a l Hs IH Hhd]; simpl; constructor; [assumption|].
  destruct Hhd; simpl; now constructor.
Qed.

Lemma Sorted_snoc {A : Type} (R : A -> A -> Prop) (l : list A) (y : A) :
  Sorted R l ->
  (forall pre z, l = pre ++ [z] -> R z y) ->
  Sorted R (l ++ [y]).
Proof.
  induction 1 as [|a l Hs IH Hhd]; intros Hlast; simpl.
  - repeat constructor.
  - constructor.
    + apply IH. intros pre z ->. apply (Hlast (a :: pre) z). reflexivity.
    + destruct Hhd as [|b l Hab]; simpl; constructor; [|assumption].
      apply (Hlast [] a). reflexivity.
Qed.

Lemma Sorted_rev {A : Type} (R : A -> A -> Prop) (l : list A) :
  Sorted R l -> Sorted (fun a b => R b a) (rev l).
Proof.
  induction 1 as [|a l Hs IH Hhd]; simpl; [constructor|].
  apply Sorted_snoc; [assumption|].
  intros pre z Hrev.
  assert (Hl : l = z :: rev pre).
  { rewrite <- (rev_involutive l), Hrev, rev_app_distr. reflexivity. }
  subst l. now inversion Hhd.
Qed.

Lemma map_nth_all {A : Type} (l : list A) (d : A) :
  map (fun j => nth j l d) (seq 0 (List.length l)) = l.
Proof.
  induction l as [|x l IH]; simpl; [reflexivity|].
  f_equal. rewrite <- seq_shift, map_map. exact IH.
Qed.

Lemma non_missing_strings keys :
  forallb string_or_missing keys = true ->
  exists ks, filter (fun c => negb (isna c)) keys = map VStr ks.
Proof.
  induction keys as [|c keys IH]; simpl; intros H.
  - now exists [].
  - apply andb_true_iff in H. destruct H as [Hc Hk].
    destruct (IH Hk) as [ks Hks].
    destruct c; simpl in *; try discriminate; eauto.
    exists (s :: ks). simpl. now rewrite Hks.
Qed.

Section SortingFacts.
Context {S : ArgSort}.

(** On keys that are strings or missing, [nargsort] returns a
    permutation of the positions. *)
Lemma nargsort_permutation keys ascending :
  forallb string_or_missing keys = true ->
  exists indexer,
    nargsort keys ascending = Ok indexer /\
    Permutation indexer (seq 0 (List.length keys)).
Proof.
  intros Hk. unfold nargsort.
  set (idx := seq 0 (List.length keys)).
  set (mask := map isna keys).
  set (nn := select (map negb mask) keys).
  set (ni := select (map negb mask) idx).
  assert (Hlen : List.length ni = List.length nn).
  { apply length_select_same. unfold idx. apply length_seq. }
  assert (Hm : List.length mask = List.length idx).
  { unfold mask, idx. now rewrite length_map, length_seq. }
  destruct (non_missing_strings keys Hk) as [ks Hks].
  assert (Hnn : nn = map VStr ks).
  { unfold nn, mask. rewrite map_map, <- Hks.
    apply (select_filter (fun c => negb (isna c))). }
  pose proof (select_partition mask idx Hm) as Hpart. fold ni in Hpart.
  destruct ascending.
  - destruct (argsort_strings ks) as [p [Hp [Hperm _]]].
    rewrite Hnn, Hp. simpl. eexists. split; [reflexivity|].
    eapply Permutation_trans; [|exact Hpart].
    apply Permutation_app_tail.
    assert (Hp' : Permutation p (seq 0 (List.length ni))).
    { rewrite Hlen, Hnn, length_map. exact Hperm. }
    apply (Permutation_map (fun j => nth j ni 0%nat)) in Hp'.
    now rewrite map_nth_all in Hp'.
  - destruct (argsort_strings (rev ks)) as [p [Hp [Hperm _]]].
    rewrite Hnn, <- map_rev, Hp. simpl. eexists. split; [reflexivity|].
    eapply Permutation_trans; [|exact Hpart].
    apply Permutation_app_tail.
    eapply Permutation_trans; [apply Permutation_sym, Permutation_rev|].
    eapply Permutation_trans; [|apply Permutation_sym, Permutation_rev].
    assert (Hp' : Permutation p (seq 0 (List.length (rev ni)))).
    { rewrite length_rev, Hlen, Hnn, length_map.
      rewrite length_rev in Hperm. exact Hperm. }
    apply (Permutation_map (fun j => nth j (rev ni) 0%nat)) in Hp'.
    now rewrite map_nth_all in Hp'.
Qed.

Lemma take_permutation d indexer :
  Permutation indexer (seq 0 (List.length (rows d))) ->
  Permutation (rows (take d indexer)) (rows d).
Proof.
  intros H. unfold take. simpl.
  apply (Permutation_map (fun i => nth i (rows d) [])) in H.
  now rewrite map_nth_all in H.
Qed.


Lemma sort_books_permutation d sort_by ascending keys :
  getitem d sort_by = Ok keys ->
  forallb string_or_missing keys = true ->
  exists d',
    sort_books d sort_by ascending = Ok d' /\
    columns d' = columns d /\
    Permutation (rows d') (rows d).
Proof.
  intros Hg Hk. unfold sort_books, sort_values.
  destruct (existsb (String.eqb sort_by) ["title"; "author"; "language"]).
  - rewrite Hg. simpl.
    destruct (nargsort_permutation keys ascending Hk) as [ix [Hix Hperm]].
    rewrite Hix. simpl. eexists. split; [reflexivity|].
    split; [reflexivity|].
    apply take_permutation.
    now rewrite <- (getitem_length d sort_by keys Hg).
  - exists d. repeat split. apply Permutation_refl.
Qed.

Lemma sort_books_other_field d sort_by ascending :
  ~ In sort_by ["title"; "author"; "language"] ->
  sort_books d sort_by ascending = Ok d.
Proof.
  intros Hnin. unfold sort_books.
  destruct (existsb (String.eqb sort_by) ["title"; "author"; "language"])
    eqn:Hex; [|reflexivity].
  apply existsb_eqb_In in Hex. contradiction.
Qed.

Lemma getitem_take d indexer by_ keys :
  getitem d by_ = Ok keys ->
  getitem (take d indexer) by_ =
  Ok (map (fun j => nth j keys VNaN) indexer).
Proof.
  unfold getitem. simpl.
  destruct (get_loc (columns d) by_) as [i| |]; simpl; try discriminate.
  intros H. inversion H. f_equal. rewrite map_map.
  apply map_ext. intros j.
  assert (Hd : nth i [] VNaN = VNaN) by (destruct i; reflexivity).
  rewrite <- Hd at 2.
  symmetry. apply (map_nth (fun r => nth i r VNaN)).
Qed.

Lemma keys_at_positions (keys : list cell) (ni : list nat)
  (ks : list string) (p : list nat) :
  map (fun j => nth j keys VNaN) ni = map VStr ks ->
  (forall j, In j p -> (j < List.length ks)%nat) ->
  map (fun j => nth j keys VNaN) (map (fun j => nth j ni 0%nat) p) =
  map VStr (map (fun j => nth j ks "") p).
Proof.
  intros Hni Hp. rewrite !map_map. apply map_ext_in. intros j Hj.
  rewrite <- (map_nth (fun j => nth j keys VNaN) ni 0%nat j), Hni.
  rewrite (nth_indep _ _ (VStr "")) by (rewrite length_map; auto).
  apply (map_nth VStr).
Qed.

Lemma nargsort_orders_keys keys ascending :
  forallb string_or_missing keys = true ->
  exists indexer,
    nargsort keys ascending = Ok indexer /\
    ordered_keys ascending (map (fun j => nth j keys VNaN) indexer).
Proof.
  intros Hk. unfold nargsort.
  set (g := fun j => nth j keys VNaN).
  set (idx := seq 0 (List.length keys)).
  set (mask := map isna keys).
  set (nn := select (map negb mask) keys).
  set (ni := select (map negb mask) idx).
  destruct (non_missing_strings keys Hk) as [ks Hks].
  assert (Hnn : nn = map VStr ks).
  { unfold nn, mask. rewrite map_map, <- Hks.
    apply (select_filter (fun c => negb (isna c))). }
  assert (Hni : map g ni = map VStr ks).
  { rewrite <- Hnn. unfold ni, nn, idx, g.
    rewrite <- select_commutes_map, map_nth_all. reflexivity. }
  assert (Hmiss : forallb isna (map g (select mask idx)) = true).
  { unfold idx, g. rewrite <- select_commutes_map, map_nth_all.
    unfold mask. rewrite select_filter. apply forallb_forall.
    intros c Hc. now apply filter_In in Hc. }
  destruct ascending.
  - destruct (argsort_strings ks) as [p [Hp [Hperm Hs]]].
    rewrite Hnn, Hp. simpl. eexists. split; [reflexivity|].
    exists (map (fun j => nth j ks "") p), (map g (select mask idx)).
    split; [|split; [exact Hmiss|]].
    + rewrite map_app. f_equal. apply keys_at_positions; [exact Hni|].
      intros j Hj. apply (Permutation_in _ Hperm) in Hj.
      apply in_seq in Hj. lia.
    + now apply Sorted_by_key.
  - destruct (argsort_strings (rev ks)) as [p [Hp [Hperm Hs]]].
    rewrite Hnn, <- map_rev, Hp. simpl. eexists. split; [reflexivity|].
    exists (rev (map (fun j => nth j (rev ks) "") p)),
           (map g (select mask idx)).
    split; [|split; [exact Hmiss|]].
    + rewrite map_app. f_equal. rewrite !map_rev. f_equal.
      apply keys_at_positions.
      * fold g. rewrite map_rev, Hni. symmetry. apply map_rev.
      * intros j Hj. apply (Permutation_in _ Hperm) in Hj.
        apply in_seq in Hj. lia.
    + apply Sorted_rev. now apply Sorted_by_key.
Qed.

(** [sort_values] puts the keys in order, the missing ones last. *)
Lemma sort_values_orders_keys d by_ ascending keys :
  getitem d by_ = Ok keys ->
  forallb string_or_missing keys = true ->
  exists d' keys',
    sort_values d by_ ascending = Ok d' /\
    getitem d' by_ = Ok keys' /\
    ordered_keys ascending keys'.
Proof.
  intros Hg Hk. unfold sort_values. rewrite Hg. simpl.
  destruct (nargsort_orders_keys keys ascending Hk) as [ix [Hix Hord]].
  rewrite Hix. simpl. eexists. eexists.
  split; [reflexivity|].
  split; [exact (getitem_take d ix by_ keys Hg)|]. exact Hord.
Qed.

End SortingFacts.

(** An instance of the sorting routine: insertion by key. *)

Lemma strings_of_map_VStr ks : strings_of (map VStr ks) = Ok ks.
Proof.
  induction ks as [|k ks IH]; simpl; [reflexivity|]. now rewrite IH.
Qed.

Lemma insert_index_permutation key i p :
  Permutation (Ascii7.insert_index key i p) (i :: p).
Proof.
  induction p as [|j p IH]; simpl; [apply Permutation_refl|].
  destruct (String.leb (key i) (key j)); [apply Permutation_refl|].
  eapply Permutation_trans; [apply perm_skip, IH|apply perm_swap].
Qed.

Lemma insert_index_sorted key i p :
  Sorted (fun a b => String.leb (key a) (key b) = true) p ->
  Sorted (fun a b => String.leb (key a) (key b) = true)
    (Ascii7.insert_index key i p).
Proof.
  induction p as [|j p IH]; intros Hs; simpl.
  - repeat constructor.
  - destruct (String.leb (key i) (key j)) eqn:Hij.
    + constructor; [assumption|]. now constructor.
    + apply Sorted_inv in Hs. destruct Hs as [Hs Hhd].
      constructor; [now apply IH|].
      assert (Hji : String.leb (key j) (key i) = true).
      { destruct (String.leb_total (key i) (key j)); congruence. }
      destruct p as [|k p]; simpl.
      * now constructor.
      * destruct (String.leb (key i) (key k)); constructor;
          [assumption|]. now inversion Hhd.
Qed.

Lemma argsort_cells_strings (ks : list string) :
  exists p, Ascii7.argsort_cells (map VStr ks) = Ok p /\
    Permutation p (seq 0 (List.length ks)) /\
    Sorted (fun i j => String.leb (nth i ks "") (nth j ks "") = true) p.
Proof.
  unfold Ascii7.argsort_cells. rewrite strings_of_map_VStr.
  eexists. split; [reflexivity|]. unfold Ascii7.argsort_strings.
  induction (seq 0 (List.length ks)) as [|i l [IHp IHs]]; simpl.
  - split; constructor.
  - split.
    + eapply Permutation_trans; [apply insert_index_permutation|].
      now constructor.
    + now apply insert_index_sorted.
Qed.

Definition insertion_argsort : ArgSort := {|
  argsort := Ascii7.argsort_cells;
  argsort_strings := argsort_cells_strings
|}.

(** ** The query pipeline *)

Lemma in_set_cols cols name c :
  In c (set_cols cols name) <-> In c cols \/ c = name.
Proof.
  unfold set_cols. destruct (existsb (String.eqb name) cols) eqn:Hex.
  - apply existsb_eqb_In in Hex. split; [now left|].
    intros [H| ->]; assumption.
  - rewrite in_app_iff. simpl. intuition.
Qed.

Lemma in_search_columns cols c :
  In c (search_columns cols) <-> In c cols \/ In c derived_columns.
Proof.
  unfold search_columns, derived_columns. rewrite !in_set_cols. simpl.
  intuition.
Qed.

Section Query.
Context {P : PyStr} {S : ArgSort}.







(** C7, as the code has it.  With a search text that is empty or blank
    and nothing selected, the search and filter stages hand the catalog's
    records on in catalog order (for a blank text the engine's copy of
    them, with the derived columns) and the sort stage orders them: the
    result is what [sort_books] makes of them.  When the sort field is
    none of title, author, language, that is their order unchanged.  When
    the column of the sort field holds strings or missing values, it is
    the same records under the same labels, ordered by the field if it
    is one of the three, with the missing values last; their order is
    then unchanged only if they were in that order already. *)
Theorem empty_query_is_sorted_catalog d E self :
  well_formed d -> SearchEngine_init d = Ok E ->
  app_df self = d -> search_engine self = Some E ->
  str_strip (search_var self) = "" ->
  selected_languages self = [] -> selected_tags self = [] ->
  selected_authors self = [] ->
  let base := if String.eqb (search_var self) "" then d else df E in
  let ascending := String.eqb (sort_order_var self) "asc" in
  rows base = (if String.eqb (search_var self) "" then rows d
               else map (with_search_keys d) (rows d)) /\
  apply_filters self =
    (sorted <- sort_books base (sort_var self) ascending ;;
     Ok (set_filtered_df self sorted)) /\
  (~ In (sort_var self) ["title"; "author"; "language"] ->
     apply_filters self = Ok (set_filtered_df self base)) /\
  (forall keys,
     getitem base (sort_var self) = Ok keys ->
     forallb string_or_missing keys = true ->
     exists self',
       apply_filters self = Ok self' /\
       columns (filtered_df self') = columns base /\
       Permutation (rows (filtered_df self')) (rows base) /\
       (In (sort_var self) ["title"; "author"; "language"] ->
        exists keys',
          getitem (filtered_df self') (sort_var self) = Ok keys' /\
          ordered_keys ascending keys') /\
       (In (sort_var self) ["title"; "author"; "language"] ->
        rows (filtered_df self') = rows base ->
        ordered_keys ascending keys)).
Proof.
  intros Hwf Hinit Hd HE Hq Hl Ht Ha base ascending.
  destruct (SearchEngine_init_spec d E Hwf Hinit)
    as [_ [_ [_ [Hrows _]]]].
  assert (Hrun : apply_filters self =
    (sorted <- sort_books base (sort_var self) ascending ;;
     Ok (set_filtered_df self sorted))).
  { unfold apply_filters. rewrite HE, Hl, Ht, Ha, Hd.
    unfold base, ascending.
    destruct (String.eqb (search_var self) "") eqn:Hs; [reflexivity|].
    unfold search_books. apply String.eqb_eq in Hq. rewrite Hq.
    rewrite orb_true_r. reflexivity. }
  split; [|split; [|split]].
  - unfold base. now destruct (String.eqb (search_var self) "").
  - exact Hrun.
  - intros Hnin. rewrite Hrun, sort_books_other_field by assumption.
    reflexivity.
  - intros keys Hg Hk.
    destruct (sort_books_permutation base (sort_var self) ascending keys
                Hg Hk) as [d' [Hs [Hc Hp]]].
    exists (set_filtered_df self d'). rewrite Hrun, Hs. simpl.
    split; [reflexivity|]. split; [assumption|]. split; [assumption|].
    assert (Hkeys : In (sort_var self) ["title"; "author"; "language"] ->
              exists keys',
                getitem d' (sort_var self) = Ok keys' /\
                ordered_keys ascending keys').
    { intros Hin.
      destruct (sort_values_orders_keys base (sort_var self) ascending keys
                  Hg Hk) as [d'' [keys' [Hs' [Hg' Hord]]]].
      exists keys'. split; [|exact Hord].
      unfold sort_books in Hs.
      assert (Hex : existsb (String.eqb (sort_var self))
                      ["title"; "author"; "language"] = true)
        by (apply existsb_eqb_In; exact Hin).
      rewrite Hex in Hs. congruence. }
    split; [exact Hkeys|].
    intros Hin Hsame. destruct (Hkeys Hin) as [keys' [Hg' Hord]].
    assert (Heq : keys' = keys).
    { unfold getitem in Hg', Hg. rewrite Hc, Hsame in Hg'. congruence. }
    now subst keys'.
Qed.

End Query.

(** ** The examples of the specification *)

(** Both records of the example match the query "dune", whatever its
    case and the blanks around it. *)
Lemma search_books_plain_substring_witness :
  exists res,
    search_books (P := Ascii7.ops) dune_engine " DUNE " = Ok res /\
    rows res = rows (df dune_engine).
Proof.
  destruct (search_books_plain_substring (P := Ascii7.ops)
              dune_catalog dune_engine " DUNE "
              (well_formedb_spec dune_catalog eq_refl) eq_refl)
    as [res [H1 [H2 _]]].
  - vm_compute. discriminate.
  - exists res. split; [exact H1|]. rewrite H2. reflexivity.
Defined.

(** An empty result set has no page, where the claim asks for one. *)
Lemma no_results_has_zero_pages :
  ~ (forall v, display_results no_results = Ok v -> (1 <= total_pages v)%Z).
Proof.
  intros H. specialize (H _ eq_refl). simpl in H. lia.
Qed.

Lemma total_pages_is_ceiling_witness :
  exists v,
    display_results (paging_state dune_catalog 50 0) = Ok v /\
    (1 <= total_pages v)%Z.
Proof.
  destruct (total_pages_is_ceiling (paging_state dune_catalog 50 0) eq_refl)
    as [v [H1 [_ [_ [H4 _]]]]].
  exists v. split; [exact H1|]. apply H4. reflexivity.
Defined.

Lemma pages_concat_roundtrip_witness :
  exists n,
    List.concat
      (map (fun i => shown_rows (paging_state legacy_catalog 2 (Z.of_nat i)))
         (seq 0 (Z.to_nat n))) = rows legacy_catalog.
Proof.
  destruct (pages_concat_roundtrip (paging_state legacy_catalog 2 0) eq_refl)
    as [[n [_ H]] _].
  exists n. exact H.
Defined.




Lemma get_unique_values_unknown_column_witness :
  get_unique_values dune_catalog "publisher" = Ok [].
Proof.
  apply (get_unique_values_unknown_column dune_catalog "publisher").
  simpl. intuition discriminate.
Defined.



(** Two keys out of order are swapped by every sorting routine. *)
Lemma argsort_two_out_of_order {S : ArgSort} (a b : string) :
  String.leb a b = false ->
  argsort [VStr a; VStr b] = Ok [1%nat; 0%nat].
Proof.
  intros Hab. destruct (argsort_strings [a; b]) as [p [Hp [Hperm Hs]]].
  simpl in Hp, Hperm. rewrite Hp. f_equal.
  apply Permutation_sym, Permutation_length_2_inv in Hperm.
  destruct Hperm as [-> | ->]; [|reflexivity].
  apply Sorted_inv in Hs. destruct Hs as [_ Hhd].
  inversion Hhd as [|? ? H]; subst. simpl in H. congruence.
Qed.

(** With no search text and nothing selected, the shelf comes back in
    title order, whatever the sorting routine. *)
Lemma empty_query_on_shelf {S : ArgSort} :
  apply_filters (P := Ascii7.ops)
    (loaded_app shelf (engine_of (P := Ascii7.ops) shelf)) =
  Ok (set_filtered_df (loaded_app shelf (engine_of (P := Ascii7.ops) shelf))
        {| columns := columns shelf; rows := rev (rows shelf) |}).
Proof.
  cbv -[argsort].
  rewrite (argsort_two_out_of_order "Walden" "Dune" eq_refl).
  reflexivity.
Qed.

(** The claim C7 fails on the shelf: the query with no search text and no
    selection returns it in title order, not in its own. *)
Lemma empty_query_reorders_shelf :
  ~ (forall S : ArgSort,
       empty_query_returns_catalog_order (P := Ascii7.ops) (S := S) shelf).
Proof.
  intros H. destruct (H insertion_argsort) as [self' [Hrun Hrows]].
  rewrite empty_query_on_shelf in Hrun. inversion Hrun; subst self'.
  simpl in Hrows. discriminate.
Qed.

Lemma empty_query_is_sorted_catalog_witness :
  exists self',
    apply_filters (P := Ascii7.ops) (S := insertion_argsort)
      (loaded_app dune_catalog (Some dune_engine)) = Ok self' /\
    Permutation (rows (filtered_df self')) (rows dune_catalog).
Proof.
  destruct (empty_query_is_sorted_catalog (P := Ascii7.ops)
              (S := insertion_argsort) dune_catalog dune_engine
              (loaded_app dune_catalog (Some dune_engine))
              (well_formedb_spec dune_catalog eq_refl)
              eq_refl eq_refl eq_refl eq_refl eq_refl eq_refl eq_refl)
    as [_ [_ [_ H]]].
  destruct (H _ eq_refl eq_refl) as [self' [H1 [_ [H3 _]]]].
  exists self'. split; [exact H1|exact H3].
Defined.

(** A second instance of the sorting routine, which puts the later of two
    equal keys first. *)

Lemma ltb_leb a b : String.ltb a b = true -> String.leb a b = true.
Proof.
  unfold String.ltb, String.leb. destruct (String.compare a b);
    congruence.
Qed.

Lemma not_ltb_leb a b : String.ltb a b = false -> String.leb b a = true.
Proof.
  unfold String.ltb, String.leb. rewrite (String.compare_antisym a b).
  destruct (String.compare b a); simpl; congruence.
Qed.

Lemma insert_index_after_permutation key i p :
  Permutation (Ascii7.insert_index_after key i p) (i :: p).
Proof.
  induction p as [|j p IH]; simpl; [apply Permutation_refl|].
  destruct (String.ltb (key i) (key j)); [apply Permutation_refl|].
  eapply Permutation_trans; [apply perm_skip, IH|apply perm_swap].
Qed.

Lemma insert_index_after_sorted key i p :
  Sorted (fun a b => String.leb (key a) (key b) = true) p ->
  Sorted (fun a b => String.leb (key a) (key b) = true)
    (Ascii7.insert_index_after key i p).
Proof.
  induction p as [|j p IH]; intros Hs; simpl.
  - repeat constructor.
  - destruct (String.ltb (key i) (key j)) eqn:Hij.
    + constructor; [assumption|]. constructor. now apply ltb_leb.
    + apply Sorted_inv in Hs. destruct Hs as [Hs Hhd].
      constructor; [now apply IH|].
      apply not_ltb_leb in Hij.
      destruct p as [|k p]; simpl.
      * now constructor.
      * destruct (String.ltb (key i) (key k)); constructor;
          [assumption|]. now inversion Hhd.
Qed.

Lemma argsort_cells_after_strings (ks : list string) :
  exists p, Ascii7.argsort_cells_after (map VStr ks) = Ok p /\
    Permutation p (seq 0 (List.length ks)) /\
    Sorted (fun i j => String.leb (nth i ks "") (nth j ks "") = true) p.
Proof.
  unfold Ascii7.argsort_cells_after. rewrite strings_of_map_VStr.
  eexists. split; [reflexivity|].
  induction (seq 0 (List.length ks)) as [|i l [IHp IHs]]; simpl.
  - split; constructor.
  - split.
    + eapply Permutation_trans; [apply insert_index_after_permutation|].
      now constructor.
    + now apply insert_index_after_sorted.
Qed.

Definition reversing_argsort : ArgSort := {|
  argsort := Ascii7.argsort_cells_after;
  argsort_strings := argsort_cells_after_strings
|}.

(** The law of the sorting routine does not fix the order of records with
    equal keys: the two instances sort the shelf by language, where both
    records have "en", into different orders. *)
Lemma tie_order_depends_on_sorting_routine :
  sort_books (S := insertion_argsort) shelf "language" true = Ok shelf /\
  sort_books (S := reversing_argsort) shelf "language" true =
    Ok {| columns := columns shelf; rows := rev (rows shelf) |}.
Proof. split; reflexivity. Qed.

(** * Further properties of the code *)

(** ** The sort stage *)

Lemma select_seq_true {A : Type} (p : A -> bool) (l : list A) (d : A)
  (s i : nat) :
  In i (select (map p l) (seq s (List.length l))) ->
  (s <= i)%nat /\ p (nth (i - s) l d) = true.
Proof.
  revert s. induction l as [|x l IH]; intros s Hin; simpl in *;
    [contradiction|].
  destruct (p x) eqn:Hx.
  - destruct Hin as [<-|Hin].
    + rewrite Nat.sub_diag. split; [lia|assumption].
    + apply IH in Hin. destruct Hin as [Hs Hp]. split; [lia|].
      replace (i - s)%nat with (Datatypes.S (i - Datatypes.S s)) by lia.
      exact Hp.
  - apply IH in Hin. destruct Hin as [Hs Hp]. split; [lia|].
    replace (i - s)%nat with (Datatypes.S (i - Datatypes.S s)) by lia.
    exact Hp.
Qed.

Lemma filter_map_commute {A B : Type} (p : B -> bool) (f : A -> B)
  (l : list A) :
  filter p (map f l) = map f (filter (fun x => p (f x)) l).
Proof.
  induction l as [|x l IH]; simpl; [reflexivity|].
  destruct (p (f x)); simpl; now rewrite IH.
Qed.

Lemma filter_none {A : Type} (p : A -> bool) (l : list A) :
  (forall x, In x l -> p x = false) -> filter p l = [].
Proof.
  induction l as [|x l IH]; intros H; simpl; [reflexivity|].
  rewrite (H x) by now left. apply IH. intros y Hy. apply H. now right.
Qed.

Lemma filter_all {A : Type} (p : A -> bool) (l : list A) :
  (forall x, In x l -> p x = true) -> filter p l = l.
Proof.
  induction l as [|x l IH]; intros H; simpl; [reflexivity|].
  rewrite (H x) by now left. f_equal. apply IH. intros y Hy. apply H.
  now right.
Qed.

Section SortStage.
Context {S : ArgSort}.

(** The positions [nargsort] returns: those of the keys that are present,
    in some order, then those of the missing keys in their own order. *)
Lemma nargsort_shape keys ascending :
  forallb string_or_missing keys = true ->
  exists present,
    nargsort keys ascending =
      Ok (present ++ select (map isna keys) (seq 0 (List.length keys))) /\
    Permutation present
      (select (map negb (map isna keys)) (seq 0 (List.length keys))).
Proof.
  intros Hk. unfold nargsort.
  set (idx := seq 0 (List.length keys)).
  set (mask := map isna keys).
  set (nn := select (map negb mask) keys).
  set (ni := select (map negb mask) idx).
  assert (Hlen : List.length ni = List.length nn).
  { apply length_select_same. unfold idx. apply length_seq. }
  destruct (non_missing_strings keys Hk) as [ks Hks].
  assert (Hnn : nn = map VStr ks).
  { unfold nn, mask. rewrite map_map, <- Hks.
    apply (select_filter (fun c => negb (isna c))). }
  destruct ascending.
  - destruct (argsort_strings ks) as [p [Hp [Hperm _]]].
    rewrite Hnn, Hp. simpl. eexists. split; [reflexivity|].
    assert (Hp' : Permutation p (seq 0 (List.length ni))).
    { rewrite Hlen, Hnn, length_map. exact Hperm. }
    apply (Permutation_map (fun j => nth j ni 0%nat)) in Hp'.
    now rewrite map_nth_all in Hp'.
  - destruct (argsort_strings (rev ks)) as [p [Hp [Hperm _]]].
    rewrite Hnn, <- map_rev, Hp. simpl. eexists. split; [reflexivity|].
    eapply Permutation_trans; [apply Permutation_sym, Permutation_rev|].
    eapply Permutation_trans; [|apply Permutation_sym, Permutation_rev].
    assert (Hp' : Permutation p (seq 0 (List.length (rev ni)))).
    { rewrite length_rev, Hlen, Hnn, length_map.
      rewrite length_rev in Hperm. exact Hperm. }
    apply (Permutation_map (fun j => nth j (rev ni) 0%nat)) in Hp'.
    now rewrite map_nth_all in Hp'.
Qed.

(** X1.  Sorting by title, author or language a frame whose keys are
    strings or missing returns the same records under the same labels,
    the keys in ascending or descending order as asked and the missing
    keys last in both directions. *)
Theorem sort_books_orders_records d sort_by ascending keys :
  In sort_by ["title"; "author"; "language"] ->
  getitem d sort_by = Ok keys ->
  forallb string_or_missing keys = true ->
  exists d' keys',
    sort_books d sort_by ascending = Ok d' /\
    columns d' = columns d /\
    Permutation (rows d') (rows d) /\
    getitem d' sort_by = Ok keys' /\
    ordered_keys ascending keys'.
Proof.
  intros Hin Hg Hk.
  destruct (sort_books_permutation d sort_by ascending keys Hg Hk)
    as [d' [Hs [Hc Hp]]].
  destruct (sort_values_orders_keys d sort_by ascending keys Hg Hk)
    as [d'' [keys' [Hs' [Hg' Hord]]]].
  exists d', keys'. repeat split; try assumption.
  unfold sort_books in Hs.
  assert (Hex : existsb (String.eqb sort_by)
                  ["title"; "author"; "language"] = true)
    by (apply existsb_eqb_In; exact Hin).
  rewrite Hex in Hs. congruence.
Qed.

(** X2.  Whatever the sorting routine does with equal keys, the records
    whose sort key is missing keep their order among themselves. *)
Theorem sort_books_keeps_order_of_missing d sort_by ascending keys d' :
  getitem d sort_by = Ok keys ->
  forallb string_or_missing keys = true ->
  sort_books d sort_by ascending = Ok d' ->
  filter (fun r => isna (value_of (columns d) r sort_by)) (rows d') =
  filter (fun r => isna (value_of (columns d) r sort_by)) (rows d).
Proof.
  intros Hg Hk. unfold sort_books, sort_values.
  destruct (existsb (String.eqb sort_by) ["title"; "author"; "language"]);
    [|intros H; now inversion H].
  rewrite Hg. simpl.
  destruct (nargsort_shape keys ascending Hk) as [present [Hix Hperm]].
  rewrite Hix. simpl. intros H. inversion H; subst d'; clear H. simpl.
  pose proof (getitem_field d sort_by keys Hg) as Hkeys.
  pose proof (getitem_length d sort_by keys Hg) as Hlen.
  set (key := fun r => value_of (columns d) r sort_by) in *.
  assert (Hkey : forall i, key (nth i (rows d) []) = nth i keys VNaN).
  { intros i. rewrite Hkeys.
    assert (Hd : key [] = VNaN).
    { unfold key, value_of, field.
      destruct (get_loc (columns d) sort_by) as [j| |]; simpl;
        try reflexivity. now destruct j. }
    rewrite <- (map_nth key). now rewrite Hd. }
  rewrite filter_map_commute, filter_app, map_app.
  rewrite (filter_none _ present).
  - rewrite filter_all.
    + simpl. rewrite <- select_commutes_map.
      rewrite Hlen, map_nth_all, Hkeys, map_map.
      apply (select_filter (fun r => isna (key r))).
    + intros i Hi. change (isna (key (nth i (rows d) [])) = true).
      rewrite Hkey.
      apply (select_seq_true isna keys VNaN) in Hi.
      now rewrite Nat.sub_0_r in Hi.
  - intros i Hi. change (isna (key (nth i (rows d) [])) = false).
    rewrite Hkey.
    apply (Permutation_in _ Hperm) in Hi. rewrite map_map in Hi.
    apply (select_seq_true (fun c => negb (isna c)) keys VNaN) in Hi.
    rewrite Nat.sub_0_r in Hi. now apply negb_true_iff.
Qed.

(** X3.  Sorting by anything but title, author or language returns the
    frame as it is, even one without such a column; sorting by one of the
    three a frame that lacks the column raises [KeyError]. *)
Theorem sort_books_unknown_or_absent_field d sort_by ascending :
  (~ In sort_by ["title"; "author"; "language"] ->
     sort_books d sort_by ascending = Ok d) /\
  (In sort_by ["title"; "author"; "language"] ->
     ~ In sort_by (columns d) ->
     sort_books d sort_by ascending = Raise (KeyError sort_by)).
Proof.
  split.
  - apply sort_books_other_field.
  - intros Hin Hnin. unfold sort_books, sort_values, getitem.
    assert (Hex : existsb (String.eqb sort_by)
                    ["title"; "author"; "language"] = true)
      by (apply existsb_eqb_In; exact Hin).
    rewrite Hex, get_loc_notin by assumption. reflexivity.
Qed.

End SortStage.

(** ** The engine and the text search *)

Lemma getitem_notin d name :
  ~ In name (columns d) -> getitem d name = Raise (KeyError name).
Proof.
  intros H. unfold getitem. now rewrite get_loc_notin.
Qed.

Lemma getitem_in d name :
  NoDup (columns d) -> In name (columns d) ->
  exists col, getitem d name = Ok col.
Proof.
  intros Hnd Hin. unfold getitem.
  destruct (get_loc_In (columns d) name Hnd Hin) as [i Hi].
  rewrite Hi. simpl. eauto.
Qed.

Lemma string_app_assoc (a b c : string) :
  ((a ++ b) ++ c)%string = (a ++ b ++ c)%string.
Proof.
  induction a as [|x a IH]; simpl; [reflexivity|]. now rewrite IH.
Qed.

Lemma occurs_in_trans a b s :
  occurs_in a b -> occurs_in b s -> occurs_in a s.
Proof.
  intros [p1 [q1 ->]] [p2 [q2 ->]].
  exists (p2 ++ p1)%string, (q1 ++ q2)%string.
  now rewrite !string_app_assoc.
Qed.

Section EngineProperties.
Context {P : PyStr}.

(** X4.  An engine can be built from a well-formed frame exactly when the
    frame has the columns title, author and tags; the first of them that
    is absent is reported by a [KeyError]. *)
Theorem SearchEngine_init_needs_columns d :
  well_formed d ->
  (~ In "title" (columns d) ->
     SearchEngine_init d = Raise (KeyError "title")) /\
  (In "title" (columns d) -> ~ In "author" (columns d) ->
     SearchEngine_init d = Raise (KeyError "author")) /\
  (In "title" (columns d) -> In "author" (columns d) ->
     ~ In "tags" (columns d) ->
     SearchEngine_init d = Raise (KeyError "tags")) /\
  (In "title" (columns d) -> In "author" (columns d) ->
     In "tags" (columns d) ->
     exists engine, SearchEngine_init d = Ok engine).
Proof.
  intros Hwf. pose proof Hwf as [Hnd Hs].
  assert (Hstep : forall title,
    getitem d "title" = Ok title ->
    forall v, getitem (setitem d "_title_lower" (map v title)) "author"
              = getitem d "author").
  { intros title Ht v. apply getitem_setitem_other; [assumption| |discriminate].
    rewrite length_map. now apply getitem_length in Ht. }
  assert (Hstep2 : forall title author,
    getitem d "title" = Ok title -> getitem d "author" = Ok author ->
    forall v w,
      getitem (setitem (setitem d "_title_lower" (map v title))
                 "_author_lower" (map w author)) "tags"
      = getitem d "tags").
  { intros title author Ht Ha v w.
    apply getitem_length in Ht. apply getitem_length in Ha.
    rewrite getitem_setitem_other.
    - apply getitem_setitem_other; [assumption| |discriminate].
      now rewrite length_map.
    - now apply shaped_setitem.
    - rewrite length_map, length_rows_setitem; [assumption|].
      now rewrite length_map.
    - discriminate. }
  unfold SearchEngine_init. repeat split.
  - intros H. now rewrite getitem_notin.
  - intros Ht Ha. destruct (getitem_in d "title" Hnd Ht) as [title Et].
    rewrite Et. simpl. rewrite (Hstep title Et).
    now rewrite getitem_notin.
  - intros Ht Ha Hg. destruct (getitem_in d "title" Hnd Ht) as [title Et].
    destruct (getitem_in d "author" Hnd Ha) as [author Ea].
    rewrite Et. simpl. rewrite (Hstep title Et), Ea. simpl.
    rewrite (Hstep2 title author Et Ea). now rewrite getitem_notin.
  - intros Ht Ha Hg. destruct (getitem_in d "title" Hnd Ht) as [title Et].
    destruct (getitem_in d "author" Hnd Ha) as [author Ea].
    destruct (getitem_in d "tags" Hnd Hg) as [tags Eg].
    rewrite Et. simpl. rewrite (Hstep title Et), Ea. simpl.
    rewrite (Hstep2 title author Et Ea), Eg. simpl. eauto.
Qed.

Lemma value_of_set_cell_other cols name v row c :
  List.length row = List.length cols -> c <> name ->
  value_of (set_cols cols name) (set_cell cols name v row) c =
  value_of cols row c.
Proof.
  intros Hlen Hne. unfold value_of, field.
  rewrite get_loc_set_cols_other by assumption.
  destruct (get_loc cols c) as [i| |] eqn:Hi; simpl; try reflexivity.
  now apply nth_set_cell_other with (other := c).
Qed.

(** X5.  The engine works on a copy: it keeps the frame it was given,
    its own frame has every label of the catalog and one record for each
    record of the catalog, in the same order, and every field of a
    catalog record reads the same in the engine's record at the same
    place. *)
Theorem engine_keeps_catalog_fields d engine :
  well_formed d -> SearchEngine_init d = Ok engine ->
  original_df engine = d /\
  List.length (rows (df engine)) = List.length (rows d) /\
  (forall c, In c (columns d) -> In c (columns (df engine))) /\
  forall i c,
    (i < List.length (rows d))%nat ->
    In c (columns d) -> ~ In c derived_columns ->
    value_of (columns (df engine)) (nth i (rows (df engine)) []) c =
    value_of (columns d) (nth i (rows d) []) c.
Proof.
  intros Hwf Hinit.
  destruct (SearchEngine_init_spec d engine Hwf Hinit)
    as [Ho [_ [Hcols [Hrows _]]]].
  split; [exact Ho|]. split; [rewrite Hrows; apply length_map|].
  split; [intros c Hc; rewrite Hcols; apply in_search_columns; auto|].
  intros i c Hi Hc Hnd. rewrite Hcols, Hrows.
  rewrite (nth_indep _ [] (with_search_keys d []))
    by (rewrite length_map; exact Hi).
  rewrite map_nth.
  assert (Hr : In (nth i (rows d) []) (rows d)) by now apply nth_In.
  set (r := nth i (rows d) []) in *.
  destruct Hwf as [_ Hs]. unfold shaped in Hs.
  rewrite Forall_forall in Hs. specialize (Hs r Hr).
  unfold search_columns, with_search_keys.
  assert (c <> "_title_lower" /\ c <> "_author_lower" /\ c <> "_tags_lower")
    as [H1 [H2 H3]].
  { unfold derived_columns in Hnd. simpl in Hnd. intuition congruence. }
  cbv zeta.
  pose proof (length_set_cell (columns d) "_title_lower"
                (VStr (title_key d r)) r Hs) as L1.
  pose proof (length_set_cell _ "_author_lower"
                (VStr (author_key d r)) _ L1) as L2.
  rewrite value_of_set_cell_other; [|exact L2|assumption].
  rewrite value_of_set_cell_other; [|exact L1|assumption].
  now rewrite value_of_set_cell_other.
Qed.

(** X6.  A longer query narrows the result: when the trimmed, lower-cased
    first query occurs in the second, every record found for the second
    is found for the first, and the records found for the second are
    those found for the first that also match the second, in order. *)
Theorem search_books_narrows d engine q1 q2 :
  well_formed d -> SearchEngine_init d = Ok engine ->
  str_strip q1 <> "" -> str_strip q2 <> "" ->
  occurs_in (str_strip (str_lower q1)) (str_strip (str_lower q2)) ->
  exists r1 r2,
    search_books engine q1 = Ok r1 /\
    search_books engine q2 = Ok r2 /\
    (forall r, In r (rows r2) -> In r (rows r1)) /\
    rows r2 =
      map (with_search_keys d)
        (filter (record_matches d (str_strip (str_lower q2)))
           (filter (record_matches d (str_strip (str_lower q1))) (rows d))).
Proof.
  intros Hwf Hinit H1 H2 Hocc.
  rewrite (search_books_rows d engine q1 Hwf Hinit H1).
  rewrite (search_books_rows d engine q2 Hwf Hinit H2).
  eexists. eexists. split; [reflexivity|]. split; [reflexivity|].
  cbn [rows].
  assert (Himp : forall r,
    record_matches d (str_strip (str_lower q2)) r = true ->
    record_matches d (str_strip (str_lower q1)) r = true).
  { intros r. rewrite !record_matches_spec.
    intros [H|[H|H]]; [left|right; left|right; right];
      exact (occurs_in_trans _ _ _ Hocc H). }
  split.
  - intros r Hin. apply in_map_iff in Hin. destruct Hin as [r0 [<- Hin]].
    apply in_map. apply filter_In in Hin. destruct Hin as [Hin Hm].
    apply filter_In. split; [assumption|now apply Himp].
  - f_equal. induction (rows d) as [|r l IH]; simpl; [reflexivity|].
    destruct (record_matches d (str_strip (str_lower q2)) r) eqn:E2.
    + rewrite (Himp r E2). simpl. rewrite E2. now rewrite IH.
    + destruct (record_matches d (str_strip (str_lower q1)) r); simpl;
        [rewrite E2|]; exact IH.
Qed.

End EngineProperties.

(** ** The filter stages *)

Lemma mask_rows_restrict d name col (f : cell -> bool) :
  getitem d name = Ok col ->
  mask_rows d (map f col) =
  restrict d (fun r => f (value_of (columns d) r name)).
Proof.
  intros Hg. rewrite (getitem_field d name col Hg), map_map.
  unfold mask_rows, restrict. f_equal.
  apply (select_filter (fun r => f (value_of (columns d) r name))).
Qed.

Lemma restrict_all d p :
  (forall r, p r = true) -> restrict d p = d.
Proof.
  intros H. unfold restrict. rewrite filter_all by auto. now destruct d.
Qed.

Lemma isin_spec values c :
  isin values c = true <-> exists s, c = VStr s /\ In s values.
Proof.
  unfold isin. rewrite existsb_exists. split.
  - intros [v [Hin Heq]]. destruct c; simpl in Heq; try discriminate.
    apply String.eqb_eq in Heq. subst. eauto.
  - intros [s [-> Hin]]. exists s. split; [assumption|].
    simpl. apply String.eqb_refl.
Qed.

Lemma any_tag_in_spec tags c :
  any_tag_in tags c = true <->
  exists t l, In t tags /\ c = VList l /\ In (VStr t) l.
Proof.
  unfold any_tag_in. rewrite existsb_exists. split.
  - intros [t [Hin Hex]]. apply existsb_exists in Hex.
    destruct Hex as [x [Hx Heq]].
    destruct c; simpl in Hx; try contradiction.
    destruct x; simpl in Heq; try discriminate.
    apply String.eqb_eq in Heq. subst. eauto.
  - intros [t [l [Hin [-> Hl]]]]. exists t. split; [assumption|].
    apply existsb_exists. exists (VStr t). split; [assumption|].
    simpl. apply String.eqb_refl.
Qed.

Lemma filter_by_language_restrict d languages col :
  getitem d "language" = Ok col ->
  filter_by_language d languages =
  Ok (restrict d (language_ok languages (columns d))).
Proof.
  intros Hg. unfold filter_by_language, language_ok.
  destruct languages as [|l ls].
  - now rewrite restrict_all.
  - rewrite Hg. cbn [bind]. f_equal. now apply mask_rows_restrict.
Qed.

Lemma filter_by_tags_restrict d tags col :
  getitem d "tags" = Ok col ->
  filter_by_tags d tags = Ok (restrict d (tags_ok tags (columns d))).
Proof.
  intros Hg. unfold filter_by_tags, tags_ok.
  destruct tags as [|t ts].
  - now rewrite restrict_all.
  - rewrite Hg. cbn [bind]. f_equal. now apply mask_rows_restrict.
Qed.

Lemma filter_by_author_restrict d authors col :
  getitem d "author" = Ok col ->
  filter_by_author d authors =
  Ok (restrict d (author_ok authors (columns d))).
Proof.
  intros Hg. unfold filter_by_author, author_ok.
  destruct authors as [|a l].
  - now rewrite restrict_all.
  - rewrite Hg. cbn [bind]. f_equal. now apply mask_rows_restrict.
Qed.




(** X7.  With languages selected, the language filter keeps, in order and
    under the same labels, exactly the records whose language is a string
    equal to one of them (a missing language never matches); it raises
    [KeyError] when the frame has no language column, and with nothing
    selected it returns the frame untouched without looking at it. *)
Theorem filter_by_language_exact d l ls :
  filter_by_language d [] = Ok d /\
  (~ In "language" (columns d) ->
     filter_by_language d (l :: ls) = Raise (KeyError "language")) /\
  (forall col, getitem d "language" = Ok col ->
     exists d',
       filter_by_language d (l :: ls) = Ok d' /\
       columns d' = columns d /\
       rows d' =
         filter (fun r => isin (l :: ls) (value_of (columns d) r "language"))
           (rows d) /\
       (forall r, In r (rows d') <->
          In r (rows d) /\
          exists s, value_of (columns d) r "language" = VStr s /\
                    In s (l :: ls))).
Proof.
  split; [reflexivity|]. split.
  - intros H. unfold filter_by_language. now rewrite getitem_notin.
  - intros col Hg.
    rewrite (filter_by_language_restrict d (l :: ls) col Hg).
    eexists. split; [reflexivity|]. split; [reflexivity|].
    split; [reflexivity|].
    intros r. unfold restrict, language_ok. cbn [rows].
    rewrite filter_In, isin_spec. reflexivity.
Qed.

(** X8.  The author filter does the same on the author column. *)
Theorem filter_by_author_exact d a l :
  filter_by_author d [] = Ok d /\
  (~ In "author" (columns d) ->
     filter_by_author d (a :: l) = Raise (KeyError "author")) /\
  (forall col, getitem d "author" = Ok col ->
     exists d',
       filter_by_author d (a :: l) = Ok d' /\
       columns d' = columns d /\
       rows d' =
         filter (fun r => isin (a :: l) (value_of (columns d) r "author"))
           (rows d) /\
       (forall r, In r (rows d') <->
          In r (rows d) /\
          exists s, value_of (columns d) r "author" = VStr s /\
                    In s (a :: l))).
Proof.
  split; [reflexivity|]. split.
  - intros H. unfold filter_by_author. now rewrite getitem_notin.
  - intros col Hg.
    rewrite (filter_by_author_restrict d (a :: l) col Hg).
    eexists. split; [reflexivity|]. split; [reflexivity|].
    split; [reflexivity|].
    intros r. unfold restrict, author_ok. cbn [rows].
    rewrite filter_In, isin_spec. reflexivity.
Qed.


(** X10.  Selecting one more tag beside others never loses a record and
    adds only records that carry the new tag. *)
Theorem filter_by_tags_monotone d t0 t ts col :
  getitem d "tags" = Ok col ->
  exists d1 d2,
    filter_by_tags d (t :: ts) = Ok d1 /\
    filter_by_tags d (t0 :: t :: ts) = Ok d2 /\
    (forall r, In r (rows d1) -> In r (rows d2)) /\
    (forall r, In r (rows d2) ->
       In r (rows d1) \/
       exists l, value_of (columns d) r "tags" = VList l /\ In (VStr t0) l).
Proof.
  intros Hg.
  rewrite (filter_by_tags_restrict d (t :: ts) col Hg).
  rewrite (filter_by_tags_restrict d (t0 :: t :: ts) col Hg).
  eexists. eexists. split; [reflexivity|]. split; [reflexivity|].
  unfold restrict, tags_ok. cbn [rows]. split.
  - intros r Hin. apply filter_In in Hin. destruct Hin as [Hin Hm].
    apply filter_In. split; [assumption|].
    apply any_tag_in_spec in Hm. destruct Hm as [t' [l [Ht' [Hv Hl]]]].
    apply any_tag_in_spec. exists t', l. split; [now right|now split].
  - intros r Hin. apply filter_In in Hin. destruct Hin as [Hin Hm].
    apply any_tag_in_spec in Hm. destruct Hm as [t' [l [Ht' [Hv Hl]]]].
    destruct Ht' as [<-|Ht'].
    + right. eauto.
    + left. apply filter_In. split; [assumption|].
      apply any_tag_in_spec. eauto.
Qed.



(** ** The pipeline as a whole *)




Lemma selected_languages_cleared self :
  selected_languages (cleared self) = [].
Proof.
  unfold selected_languages, cleared. cbn [language_vars].
  induction (language_vars self) as [|lv l IH]; simpl; [reflexivity|].
  exact IH.
Qed.

Section Pipeline.
Context {P : PyStr} {S : ArgSort}.



(** X13.  [clear_filters] empties the search text and every selection,
    goes back to the first page and shows the whole catalog again, as the
    sort stage orders it: the result set is what [sort_books] makes of
    the catalog, every record of it once, ordered by the sort field when
    that is title, author or language (missing values last), and the
    catalog itself otherwise. *)
Theorem clear_filters_shows_whole_catalog self engine keys :
  search_engine self = Some engine ->
  getitem (app_df self) (sort_var self) = Ok keys ->
  forallb string_or_missing keys = true ->
  let ascending := String.eqb (sort_order_var self) "asc" in
  exists self',
    clear_filters self = Ok self' /\
    sort_books (app_df self) (sort_var self) ascending =
      Ok (filtered_df self') /\
    Permutation (rows (filtered_df self')) (rows (app_df self)) /\
    columns (filtered_df self') = columns (app_df self) /\
    (In (sort_var self) ["title"; "author"; "language"] ->
     exists keys',
       getitem (filtered_df self') (sort_var self) = Ok keys' /\
       ordered_keys ascending keys') /\
    (~ In (sort_var self) ["title"; "author"; "language"] ->
     filtered_df self' = app_df self) /\
    current_page self' = 0%Z /\
    search_var self' = "" /\
    selected_languages self' = [] /\
    selected_tags self' = [] /\
    selected_authors self' = [].
Proof.
  intros HE Hg Hk ascending. unfold clear_filters, apply_filters.
  rewrite selected_languages_cleared.
  cbn [search_engine cleared search_var selected_tags selected_authors
       app_df sort_var sort_order_var].
  rewrite HE. cbn [String.eqb bind]. fold ascending.
  destruct (sort_books_permutation (app_df self) (sort_var self)
              ascending keys Hg Hk)
    as [d' [Hs [Hc Hp]]].
  rewrite Hs. cbn [bind]. eexists. split; [reflexivity|].
  cbn [filtered_df set_filtered_df current_page search_var selected_tags
       selected_authors sort_var].
  split; [reflexivity|]. split; [exact Hp|]. split; [exact Hc|].
  split; [|split].
  - intros Hin.
    destruct (sort_values_orders_keys (app_df self) (sort_var self)
                ascending keys Hg Hk) as [d'' [keys' [Hs' [Hg' Hord]]]].
    exists keys'. split; [|exact Hord].
    unfold sort_books in Hs.
    assert (Hex : existsb (String.eqb (sort_var self))
                    ["title"; "author"; "language"] = true)
      by (apply existsb_eqb_In; exact Hin).
    rewrite Hex in Hs. congruence.
  - intros Hnin.
    rewrite (sort_books_other_field _ _ _ Hnin) in Hs. congruence.
  - repeat split. apply (selected_languages_cleared self).
Qed.

End Pipeline.

(** ** Pages and page navigation *)

Lemma display_results_page self :
  (0 < results_per_page self)%Z -> (0 <= current_page self)%Z ->
  display_results self =
  Ok {| page_rows :=
          firstn (Z.to_nat (results_per_page self))
            (skipn (Z.to_nat (current_page self * results_per_page self))
               (rows (filtered_df self)));
        total_pages := page_count self |}.
Proof.
  intros Hp Hc. unfold display_results, page_count.
  set (l := rows (filtered_df self)).
  set (p := results_per_page self) in *.
  set (total := Z.of_nat (List.length l)).
  destruct (Z.eqb_spec total 0) as [H0|H0].
  - assert (l = []) as -> by (destruct l; [reflexivity|simpl in *; lia]).
    rewrite skipn_nil, firstn_nil. f_equal. f_equal. simpl.
    symmetry. apply Z.div_small. lia.
  - unfold floordiv. destruct (Z.eqb_spec p 0); [lia|]. cbn [bind].
    unfold total. now rewrite iloc_page.
Qed.

(** X14.  For a positive page size and a page index that is not
    negative, a page never has more rows than the page size, every page
    before the last is full, the last page has the rows that remain and
    at least one, and a page index past the last page shows no row at
    all. *)
Theorem page_sizes self v :
  (0 < results_per_page self)%Z -> (0 <= current_page self)%Z ->
  display_results self = Ok v ->
  let total := Z.of_nat (List.length (rows (filtered_df self))) in
  let size := Z.of_nat (List.length (page_rows v)) in
  (size <= results_per_page self)%Z /\
  ((current_page self < total_pages v - 1)%Z ->
     size = results_per_page self) /\
  (current_page self = (total_pages v - 1)%Z ->
     (0 < size)%Z /\
     size = (total - current_page self * results_per_page self)%Z) /\
  ((total_pages v <= current_page self)%Z -> page_rows v = []).
Proof.
  intros Hp Hc Hd total size.
  rewrite (display_results_page self Hp Hc) in Hd. inversion Hd; subst v.
  clear Hd. unfold size. cbn [page_rows total_pages].
  rewrite length_firstn, length_skipn. fold total.
  pose proof (floordiv_ceiling total (results_per_page self) Hp) as Hceil.
  fold (page_count self) in Hceil. unfold page_count in *. fold total in Hceil |- *.
  set (p := results_per_page self) in *.
  set (c := current_page self) in *.
  set (n := ((total + p - 1) / p)%Z) in *.
  assert (0 <= total)%Z by (unfold total; lia).
  assert (0 <= c * p)%Z by nia.
  split; [lia|]. split; [|split].
  - intros Hlt. assert (c * p + p <= total)%Z by nia. lia.
  - intros Hc'. assert ((n - 1) * p < total)%Z by lia.
    assert (c * p < total)%Z by (rewrite Hc'; lia).
    split; lia.
  - intros Hge. assert (total <= c * p)%Z by nia.
    apply length_zero_iff_nil. rewrite length_firstn, length_skipn.
    fold total. lia.
Qed.

(** X15.  The row at place [j] of page [i] is the row at place
    [i * pageSize + j] of the result set. *)
Theorem page_row_is_result_row self v (j : nat) :
  (0 < results_per_page self)%Z -> (0 <= current_page self)%Z ->
  display_results self = Ok v ->
  (j < List.length (page_rows v))%nat ->
  nth_error (page_rows v) j =
  nth_error (rows (filtered_df self))
    (Z.to_nat (current_page self * results_per_page self) + j).
Proof.
  intros Hp Hc Hd Hj.
  rewrite (display_results_page self Hp Hc) in Hd. inversion Hd; subst v.
  clear Hd. cbn [page_rows] in *.
  rewrite length_firstn in Hj.
  rewrite nth_error_firstn.
  destruct (Nat.ltb_spec j (Z.to_nat (results_per_page self))); [|lia].
  apply nth_error_skipn.
Qed.

Lemma set_current_page_same self :
  set_current_page self (current_page self) = self.
Proof. now destruct self. Qed.

Lemma set_current_page_twice self a b :
  set_current_page (set_current_page self a) b = set_current_page self b.
Proof. reflexivity. Qed.

Lemma set_current_page_moves self a :
  a <> current_page self -> set_current_page self a <> self.
Proof.
  intros Hne Heq. apply Hne. apply (f_equal current_page) in Heq.
  exact Heq.
Qed.

(** X16.  Page navigation never leaves the pages: from a page index
    between [0] and the last page, [prev_page] and [next_page] lead to
    such an index again, and they change nothing but the page index. *)
Theorem navigation_stays_in_range self :
  (0 < results_per_page self)%Z ->
  (0 <= current_page self <= Z.max 0 (page_count self - 1))%Z ->
  (0 <= current_page (prev_page self) <= Z.max 0 (page_count self - 1))%Z /\
  prev_page self = set_current_page self (current_page (prev_page self)) /\
  exists next,
    next_page self = Ok next /\
    (0 <= current_page next <= Z.max 0 (page_count self - 1))%Z /\
    next = set_current_page self (current_page next).
Proof.
  intros Hp Hc. split; [|split].
  - unfold prev_page. destruct (Z.ltb_spec 0 (current_page self));
      cbn [current_page set_current_page]; lia.
  - unfold prev_page. destruct (Z.ltb_spec 0 (current_page self)).
    + reflexivity.
    + symmetry. apply set_current_page_same.
  - unfold next_page, floordiv.
    destruct (Z.eqb_spec (results_per_page self) 0); [lia|]. cbn [bind].
    fold (page_count self).
    destruct (Z.ltb_spec (current_page self) (page_count self - 1)).
    + eexists. split; [reflexivity|].
      cbn [current_page set_current_page]. split; [lia|reflexivity].
    + eexists. split; [reflexivity|]. split; [lia|].
      symmetry. apply set_current_page_same.
Qed.

(** X17.  Going to the next page and back returns to the same state, and
    so does going back and forth, whenever the first step moves. *)
Theorem next_and_prev_are_inverse self :
  (0 < results_per_page self)%Z -> (0 <= current_page self)%Z ->
  ((current_page self < page_count self - 1)%Z ->
     exists next,
       next_page self = Ok next /\ next <> self /\ prev_page next = self) /\
  ((0 < current_page self <= page_count self - 1)%Z ->
     prev_page self <> self /\ next_page (prev_page self) = Ok self).
Proof.
  intros Hp Hc. split.
  - intros Hlt. unfold next_page, floordiv.
    destruct (Z.eqb_spec (results_per_page self) 0); [lia|]. cbn [bind].
    fold (page_count self).
    destruct (Z.ltb_spec (current_page self) (page_count self - 1)); [|lia].
    eexists. split; [reflexivity|]. split.
    + apply set_current_page_moves. lia.
    + unfold prev_page. cbn [current_page set_current_page].
      destruct (Z.ltb_spec 0 (current_page self + 1)); [|lia].
      rewrite set_current_page_twice.
      replace (current_page self + 1 - 1)%Z with (current_page self) by lia.
      apply set_current_page_same.
  - intros [Hpos Hle]. unfold prev_page.
    destruct (Z.ltb_spec 0 (current_page self)); [|lia]. split.
    + apply set_current_page_moves. lia.
    + unfold next_page, floordiv.
      cbn [results_per_page filtered_df current_page set_current_page].
      destruct (Z.eqb_spec (results_per_page self) 0); [lia|]. cbn [bind].
      fold (page_count self).
      destruct (Z.ltb_spec (current_page self - 1) (page_count self - 1));
        [|lia].
      rewrite set_current_page_twice.
      replace (current_page self - 1 + 1)%Z with (current_page self) by lia.
      now rewrite set_current_page_same.
Qed.

(** X18.  On a page index within the pages, the previous and next buttons
    are enabled exactly when [prev_page] and [next_page] move. *)
Theorem buttons_agree_with_navigation self :
  (0 < results_per_page self)%Z ->
  (0 <= current_page self <= Z.max 0 (page_count self - 1))%Z ->
  let controls := update_pagination_controls self (page_count self) in
  (prev_btn controls = true <-> prev_page self <> self) /\
  (next_btn controls = true <-> next_page self <> Ok self).
Proof.
  intros Hp Hc controls. unfold controls, update_pagination_controls.
  unfold prev_page, next_page, floordiv.
  destruct (Z.eqb_spec (results_per_page self) 0); [lia|]. cbn [bind].
  fold (page_count self).
  destruct (Z.leb_spec (page_count self) 1); cbn [prev_btn next_btn].
  - assert (current_page self = 0%Z) by lia.
    destruct (Z.ltb_spec 0 (current_page self)); [lia|].
    destruct (Z.ltb_spec (current_page self) (page_count self - 1)); [lia|].
    split; split; intros H'; try discriminate; now contradiction H'.
  - split.
    + destruct (Z.ltb_spec 0 (current_page self)).
      * split; [intros _|reflexivity].
        apply set_current_page_moves. lia.
      * split; [discriminate|]. intros H'. now contradiction H'.
    + destruct (Z.ltb_spec (current_page self) (page_count self - 1)).
      * split; [intros _|reflexivity].
        intros Heq. inversion Heq as [Heq'].
        apply (set_current_page_moves self (current_page self + 1));
          [lia|assumption].
      * split; [discriminate|]. intros H'. now contradiction H'.
Qed.

(** ** The search history *)

Lemma remember_cases search_history query :
  ((query = "" \/ In query search_history) /\
   remember search_history query = search_history) \/
  (query <> "" /\ ~ In query search_history /\
   (List.length (search_history ++ [query]) <= 10)%nat /\
   remember search_history query = search_history ++ [query]) \/
  (query <> "" /\ ~ In query search_history /\
   (10 < List.length (search_history ++ [query]))%nat /\
   remember search_history query = tl (search_history ++ [query])).
Proof.
  unfold remember.
  destruct (String.eqb_spec query ""); [left; split; [now left|reflexivity]|].
  destruct (existsb (String.eqb query) search_history) eqn:Hex.
  - apply existsb_eqb_In in Hex. left. split; [now right|reflexivity].
  - assert (Hnin : ~ In query search_history).
    { intros Hin. apply existsb_eqb_In in Hin. congruence. }
    cbn [negb andb].
    destruct (Nat.ltb_spec 10 (List.length (search_history ++ [query]))).
    + right. right. repeat split; assumption.
    + right. left. repeat split; assumption.
Qed.

Section History.
Context {P : PyStr} {S : ArgSort}.

Lemma apply_filters_keeps_page self self' :
  apply_filters self = Ok self' -> current_page self' = current_page self.
Proof.
  unfold apply_filters. destruct (search_engine self) as [engine|].
  - destruct (if String.eqb (search_var self) "" then Ok (app_df self)
              else search_books engine (search_var self)) as [r1| |];
      cbn [bind]; try discriminate.
    destruct (match selected_languages self with
              | [] => Ok r1
              | _ :: _ => filter_by_language r1 (selected_languages self)
              end) as [r2| |]; cbn [bind]; try discriminate.
    destruct (match selected_tags self with
              | [] => Ok r2
              | _ :: _ => filter_by_tags r2 (selected_tags self)
              end) as [r3| |]; cbn [bind]; try discriminate.
    destruct (match selected_authors self with
              | [] => Ok r3
              | _ :: _ => filter_by_author r3 (selected_authors self)
              end) as [r4| |]; cbn [bind]; try discriminate.
    destruct (sort_books r4 (sort_var self)
                (String.eqb (sort_order_var self) "asc")) as [r5| |];
      cbn [bind]; try discriminate.
    intros H. now inversion H.
  - intros H. now inversion H.
Qed.

(** X19.  [perform_search] keeps the search history in shape: at most
    ten entries, none twice, never the empty text; a search text that is
    not empty is in the history afterwards, nothing else is added, and
    the first page is shown. *)
Theorem perform_search_history search_history self history' self' :
  (List.length search_history <= 10)%nat ->
  NoDup search_history -> ~ In "" search_history ->
  perform_search search_history self = Ok (history', self') ->
  (List.length history' <= 10)%nat /\
  NoDup history' /\ ~ In "" history' /\
  (search_var self <> "" -> In (search_var self) history') /\
  (forall q, In q history' -> In q search_history \/ q = search_var self) /\
  current_page self' = 0%Z.
Proof.
  intros Hlen Hnd Hne. unfold perform_search.
  destruct (apply_filters (set_current_page self 0)) as [s| |] eqn:Ha;
    cbn [bind]; try discriminate.
  intros H. inversion H; subst history' self'; clear H.
  apply apply_filters_keeps_page in Ha. cbn [current_page set_current_page] in Ha.
  set (q := search_var self).
  destruct (remember_cases search_history q)
    as [[Hcase ->]|[[Hq [Hnin [Hshort ->]]]|[Hq [Hnin [Hlong ->]]]]].
  - repeat split; try assumption.
    + intros Hq. destruct Hcase as [Hcase|Hcase]; [contradiction|assumption].
    + intros q' Hin. now left.
  - repeat split.
    + exact Hshort.
    + apply NoDup_app; [assumption|repeat constructor; intros []|].
      intros x Hx [<-|[]]. contradiction.
    + intros Hin. apply in_app_iff in Hin. destruct Hin as [Hin|[Hin|[]]];
        [contradiction|congruence].
    + intros _. apply in_app_iff. right. now left.
    + intros q' Hin. apply in_app_iff in Hin.
      destruct Hin as [Hin|[<-|[]]]; [now left|now right].
    + exact Ha.
  - destruct search_history as [|h0 rest].
    { simpl in Hlong. lia. }
    cbn [app tl] in *. inversion Hnd as [|? ? Hh0 Hrest]; subst.
    repeat split.
    + rewrite length_app in *. simpl in *. lia.
    + apply NoDup_app; [assumption|repeat constructor; intros []|].
      intros x Hx [<-|[]]. apply Hnin. now right.
    + intros Hin. apply in_app_iff in Hin. destruct Hin as [Hin|[Hin|[]]].
      * apply Hne. now right.
      * congruence.
    + intros _. apply in_app_iff. right. now left.
    + intros q' Hin. apply in_app_iff in Hin.
      destruct Hin as [Hin|[<-|[]]]; [left; now right|now right].
    + exact Ha.
Qed.

End History.

(** ** The loader, again *)

Lemma in_fold_add_key keys seen k :
  In k (fold_left add_key keys seen) <-> In k seen \/ In k keys.
Proof.
  revert seen. induction keys as [|x keys IH]; intros seen; simpl.
  - tauto.
  - rewrite IH. unfold add_key.
    destruct (existsb (String.eqb x) seen) eqn:Hex.
    + apply existsb_eqb_In in Hex. split; [tauto|].
      intros [H|[<-|H]]; tauto.
    + rewrite in_app_iff. simpl. tauto.
Qed.

Lemma NoDup_fold_add_key keys seen :
  NoDup seen -> NoDup (fold_left add_key keys seen).
Proof.
  revert seen. induction keys as [|x keys IH]; intros seen Hnd; simpl;
    [assumption|].
  apply IH. apply (NoDup_set_cols seen x Hnd).
Qed.

Lemma in_frame_columns_from data seen k :
  In k (fold_left (fun seen r => fold_left add_key (map fst r) seen)
          data seen) <->
  In k seen \/ exists rec : record, In rec data /\ In k (map fst rec).
Proof.
  revert seen. induction data as [|r data IH]; intros seen; simpl.
  - split; [tauto|]. intros [H|[rec [[] _]]]. exact H.
  - rewrite IH, in_fold_add_key. split.
    + intros [[H|H]|[rec [Hin Hk]]]; eauto.
    + intros [H|[rec [[<-|Hin] Hk]]]; eauto.
Qed.

Lemma in_frame_columns data k :
  In k (frame_columns data) <->
  exists rec : record, In rec data /\ In k (map fst rec).
Proof.
  unfold frame_columns. rewrite in_frame_columns_from. simpl. tauto.
Qed.

Lemma NoDup_frame_columns data : NoDup (frame_columns data).
Proof.
  unfold frame_columns. generalize (NoDup_nil string).
  generalize (@nil string) as seen.
  induction data as [|r data IH]; intros seen Hnd; simpl; [assumption|].
  apply IH. now apply NoDup_fold_add_key.
Qed.

Lemma rename_label_tags c :
  rename_label c = "tags" -> c = "tags" \/ c = "schlagwörter".
Proof.
  unfold rename_label.
  destruct (String.eqb_spec c "titel"); [discriminate|].
  destruct (String.eqb_spec c "autor"); [discriminate|].
  destruct (String.eqb_spec c "sprache"); [discriminate|].
  destruct (String.eqb_spec c "schlagwörter"); [now right|now left].
Qed.

(** X20.  A file in which no record has tags cannot be loaded: when the
    key tags occurs nowhere, and either titel or schlagwörter occurs
    nowhere, the load prints that the column tags was not found and
    returns the empty catalog, whatever else the records hold. *)
Theorem load_without_tags_fails file_path data :
  (forall rec : record, In rec data -> ~ In "tags" (map fst rec)) ->
  (forall rec : record, In rec data -> ~ In "titel" (map fst rec)) \/
  (forall rec : record, In rec data -> ~ In "schlagwörter" (map fst rec)) ->
  load_json_data file_path (Ok data) =
  Ok (empty_frame, ["Error loading data: 'tags'"]).
Proof.
  intros Htags Hlegacy.
  assert (Hnin : ~ In "tags" (columns (parsed_frame data))).
  { unfold parsed_frame, normalize_columns.
    destruct (has_column (frame_of_records data) "titel") eqn:Hh.
    - apply has_column_In in Hh. simpl in Hh.
      apply in_frame_columns in Hh. destruct Hh as [rec0 [Hin0 Hk0]].
      destruct Hlegacy as [Hno|Hno]; [now apply Hno in Hin0|].
      simpl. intros Hin. apply in_map_iff in Hin.
      destruct Hin as [c [Hc Hin]]. apply in_frame_columns in Hin.
      destruct Hin as [rec [Hrec Hk]].
      apply rename_label_tags in Hc. destruct Hc as [->| ->].
      + now apply (Htags rec Hrec).
      + now apply (Hno rec Hrec).
    - simpl. intros Hin. apply in_frame_columns in Hin.
      destruct Hin as [rec [Hrec Hk]]. now apply (Htags rec Hrec). }
  pose proof (load_json_data_cases file_path (Ok data)) as Hc.
  assert (Hf : load_frame (Ok data) = Raise (KeyError "tags")).
  { unfold load_frame. cbn [bind]. fold (parsed_frame data).
    now rewrite getitem_notin. }
  rewrite Hf in Hc. exact Hc.
Qed.

Lemma positions_complete name cols s j :
  (j < List.length cols)%nat -> nth j cols "" = name ->
  In (s + j)%nat (positions name cols s).
Proof.
  revert s j. induction cols as [|c cols IH]; intros s j Hj Hn;
    simpl in *; [lia|].
  destruct j as [|j].
  - subst. rewrite String.eqb_refl, Nat.add_0_r. now left.
  - assert (Hin : In (Datatypes.S s + j)%nat (positions name cols (Datatypes.S s)))
      by (apply IH; [lia|assumption]).
    replace (s + Datatypes.S j)%nat with (Datatypes.S s + j)%nat by lia.
    destruct (String.eqb name c); [now right|assumption].
Qed.

Lemma get_loc_unique cols name i j :
  get_loc cols name = Ok i ->
  (j < List.length cols)%nat -> nth j cols "" = name -> j = i.
Proof.
  unfold get_loc. intros Hi Hj Hn.
  pose proof (positions_complete name cols 0 j Hj Hn) as Hin.
  destruct (positions name cols 0) as [|p [|q l]]; try discriminate.
  inversion Hi; subst. simpl in Hin. destruct Hin as [<-|[]]. reflexivity.
Qed.

Lemma get_loc_nth cols j :
  NoDup cols -> (j < List.length cols)%nat ->
  get_loc cols (nth j cols "") = Ok j.
Proof.
  intros Hnd Hj.
  destruct (get_loc_In cols (nth j cols "") Hnd (nth_In cols "" Hj))
    as [i Hi].
  rewrite Hi. f_equal. symmetry.
  now apply (get_loc_unique cols (nth j cols "") i j).
Qed.

Lemma nth_map_in_range {A B : Type} (f : A -> B) (l : list A) (j : nat)
  (d : A) (d' : B) :
  (j < List.length l)%nat -> nth j (map f l) d' = f (nth j l d).
Proof.
  intros Hj. rewrite (nth_indep _ d' (f d)) by now rewrite length_map.
  apply map_nth.
Qed.

(** X21.  A successful load keeps every record and every text field: the
    frame has one row for each object of the file, in the order of the
    file, and for a key whose values in the file are strings, lists or
    objects the row holds, under the label of the key (renamed for a
    legacy file), the value the object has for the key, or NaN when the
    object lacks it.  Only the tags are coerced. *)
Theorem load_keeps_records_and_fields file_path data d :
  load_json_data file_path (Ok data) = Ok (d, []) ->
  NoDup (columns d) ->
  List.length (rows d) = List.length data /\
  forall i rec k,
    nth_error data i = Some rec ->
    In k (frame_columns data) ->
    file_label data k <> "tags" ->
    (forall rec' v,
       In rec' data -> lookup k rec' = Some v -> kept_as_is v = true) ->
    value_of (columns d) (nth i (rows d) []) (file_label data k) =
    value_or_nan (lookup k rec).
Proof.
  intros Hl Hnd. pose proof (load_json_data_cases file_path (Ok data)) as Hc.
  destruct (load_frame (Ok data)) as [d'|e|] eqn:Hf; rewrite Hc in Hl;
    try discriminate.
  inversion Hl; subst d'. clear Hl Hc.
  destruct (load_frame_Ok _ _ Hf) as [data' [tags [Hr [Hg Hd]]]].
  inversion Hr; subst data'. clear Hr.
  assert (Hcols : columns d = columns (parsed_frame data)).
  { subst d. now apply columns_setitem_present with (col := tags). }
  assert (Hlab : columns (parsed_frame data) =
                 map (file_label data) (frame_columns data)).
  { unfold parsed_frame, normalize_columns, file_label.
    destruct (has_column (frame_of_records data) "titel"); simpl;
      [reflexivity|]. symmetry. apply map_id. }
  assert (Hrows : rows d =
    map (fun r => set_cell (columns (parsed_frame data)) "tags"
                    (coerce_tags (value_of (columns (parsed_frame data)) r "tags")) r)
      (map (record_row (frame_columns data)) data)).
  { pose proof (getitem_field _ _ _ Hg) as Ht. subst d.
    rewrite Ht, map_map.
    rewrite rows_setitem_over with (k := fun r => r)
      by (symmetry; apply map_id).
    now rewrite rows_parsed_frame. }
  split.
  - now rewrite Hrows, !length_map.
  - intros i rec k Hi Hk Hne _.
    apply In_nth with (d := "") in Hk. destruct Hk as [j [Hj Hkj]].
    assert (Hloc : get_loc (columns d) (file_label data k) = Ok j).
    { rewrite <- Hkj.
      rewrite <- (nth_map_in_range (file_label data) _ j "" "") by assumption.
      rewrite Hcols, Hlab. apply get_loc_nth.
      - now rewrite <- Hlab, <- Hcols.
      - now rewrite length_map. }
    unfold value_of, field. rewrite Hloc. cbn [bind].
    rewrite Hrows.
    assert (Hrow : nth i (map (record_row (frame_columns data)) data) []
                   = record_row (frame_columns data) rec).
    { apply nth_error_nth with (d := []).
      now rewrite nth_error_map, Hi. }
    rewrite (nth_map_in_range _ _ i [] []).
    + rewrite Hrow.
      rewrite nth_set_cell_other with (other := file_label data k).
      * unfold record_row.
        rewrite (nth_map_in_range _ _ j "" VNaN) by assumption.
        now rewrite Hkj.
      * unfold record_row. now rewrite Hlab, !length_map.
      * assumption.
      * now rewrite <- Hcols.
    + rewrite length_map. apply nth_error_Some. congruence.
Qed.

(** ** Unique values *)

Lemma in_insert_sorted x l y :
  In y (insert_sorted x l) <-> y = x \/ In y l.
Proof.
  induction l as [|z l IH]; simpl; [intuition|].
  destruct (String.leb x z); simpl; [intuition|].
  rewrite IH. intuition.
Qed.

Lemma in_sorted l y : In y (sorted l) <-> In y l.
Proof.
  unfold sorted. induction l as [|x l IH]; simpl; [tauto|].
  rewrite in_insert_sorted, IH. intuition.
Qed.

Lemma Sorted_insert_sorted x l :
  Sorted (fun a b => String.leb a b = true) l ->
  Sorted (fun a b => String.leb a b = true) (insert_sorted x l).
Proof.
  induction l as [|z l IH]; intros Hs; simpl.
  - repeat constructor.
  - destruct (String.leb x z) eqn:Hxz.
    + constructor; [assumption|]. now constructor.
    + apply Sorted_inv in Hs. destruct Hs as [Hs Hhd].
      constructor; [now apply IH|].
      assert (Hzx : String.leb z x = true).
      { destruct (String.leb_total x z); congruence. }
      destruct l as [|w l]; simpl.
      * now constructor.
      * destruct (String.leb x w); constructor; [assumption|].
        now inversion Hhd.
Qed.

Lemma Sorted_sorted l : Sorted (fun a b => String.leb a b = true) (sorted l).
Proof.
  unfold sorted. induction l as [|x l IH]; simpl; [constructor|].
  now apply Sorted_insert_sorted.
Qed.

Lemma NoDup_insert_sorted x l :
  NoDup l -> ~ In x l -> NoDup (insert_sorted x l).
Proof.
  induction l as [|z l IH]; intros Hnd Hnin; simpl.
  - repeat constructor. intros [].
  - destruct (String.leb x z); [now constructor|].
    inversion Hnd; subst. constructor.
    + rewrite in_insert_sorted. simpl in Hnin. intuition.
    + apply IH; [assumption|]. simpl in Hnin. intuition.
Qed.

Lemma NoDup_sorted l : NoDup l -> NoDup (sorted l).
Proof.
  unfold sorted. induction 1 as [|x l Hx Hnd IH]; simpl; [constructor|].
  apply NoDup_insert_sorted; [assumption|]. now rewrite in_sorted.
Qed.

Lemma in_unique l y : In y (unique l) <-> In y l.
Proof.
  induction l as [|x l IH]; simpl; [tauto|].
  rewrite filter_In, IH. split.
  - intuition.
  - intros [->|H]; [now left|].
    destruct (String.eqb_spec x y); [now left|]. right. now split.
Qed.

Lemma NoDup_unique l : NoDup (unique l).
Proof.
  induction l as [|x l IH]; simpl; constructor.
  - rewrite filter_In. intros [_ H]. now rewrite String.eqb_refl in H.
  - now apply NoDup_filter.
Qed.

Lemma strings_of_Ok l ss : strings_of l = Ok ss -> l = map VStr ss.
Proof.
  revert ss. induction l as [|c l IH]; intros ss H; simpl in H.
  - now inversion H.
  - destruct c; try discriminate.
    destruct (strings_of l) as [ss'| |]; simpl in H; try discriminate.
    inversion H. simpl. now rewrite (IH ss' eq_refl).
Qed.

(** X22.  What [get_unique_values] returns is in ascending order and has
    no value twice; for the tags it holds exactly the tags that occur in
    some record's list, for another column exactly the strings that
    occur in the column, missing values left out. *)
Theorem get_unique_values_sorted_distinct_complete d column values :
  get_unique_values d column = Ok values ->
  Sorted (fun a b => String.leb a b = true) values /\
  NoDup values /\
  (column = "tags" ->
     forall s, In s values <->
       exists r l, In r (rows d) /\
                   value_of (columns d) r "tags" = VList l /\
                   In (VStr s) l) /\
  (column <> "tags" ->
     forall s, In s values <->
       exists r, In r (rows d) /\ value_of (columns d) r column = VStr s).
Proof.
  unfold get_unique_values.
  destruct (has_column d column) eqn:Hh; cbn [negb].
  - destruct (String.eqb_spec column "tags") as [->|Hne].
    + destruct (getitem d "tags") as [col| |] eqn:Hg; cbn [bind];
        try discriminate.
      destruct (strings_of (flat_map list_or_empty col)) as [ss| |] eqn:Hs;
        cbn [bind]; try discriminate.
      intros H. inversion H; subst values; clear H.
      split; [apply Sorted_sorted|].
      split; [apply NoDup_sorted, NoDup_unique|].
      split; [|intros Hc; now contradiction Hc].
      intros _ s. rewrite in_sorted, in_unique.
      apply strings_of_Ok in Hs.
      rewrite (getitem_field _ _ _ Hg) in Hs.
      assert (Hiff : In s ss <->
                In (VStr s) (flat_map list_or_empty
                   (map (fun r => value_of (columns d) r "tags") (rows d)))).
      { rewrite Hs, in_map_iff. split.
        - intros Hin. exists s. now split.
        - intros [s' [Heq Hin]]. now inversion Heq; subst. }
      rewrite Hiff, in_flat_map. split.
      * intros [c [Hc Hin]]. apply in_map_iff in Hc.
        destruct Hc as [r [<- Hr]].
        destruct (value_of (columns d) r "tags") eqn:Hv;
          simpl in Hin; try contradiction.
        exists r, l. now repeat split.
      * intros [r [l [Hr [Hv Hin]]]].
        exists (VList l). split; [|exact Hin].
        apply in_map_iff. exists r. now split.
    + destruct (getitem d column) as [col| |] eqn:Hg; cbn [bind];
        try discriminate.
      destruct (strings_of (filter (fun c => negb (isna c)) col))
        as [ss| |] eqn:Hs; cbn [bind]; try discriminate.
      intros H. inversion H; subst values; clear H.
      split; [apply Sorted_sorted|].
      split; [apply NoDup_sorted, NoDup_unique|].
      split; [intros Hc; now contradiction Hne|].
      intros _ s. rewrite in_sorted, in_unique.
      apply strings_of_Ok in Hs.
      assert (Hiff : In s ss <->
                In (VStr s) (filter (fun c => negb (isna c)) col)).
      { rewrite Hs, in_map_iff. split.
        - intros Hin. exists s. now split.
        - intros [s' [Heq Hin]]. now inversion Heq; subst. }
      rewrite Hiff, filter_In, (getitem_field _ _ _ Hg), in_map_iff.
      split.
      * intros [[r [Hv Hr]] _]. eauto.
      * intros [r [Hr Hv]]. split; [eauto|reflexivity].
  - intros H. inversion H; subst values; clear H.
    split; [constructor|]. split; [constructor|].
    assert (Hnone : forall r, value_of (columns d) r column = VNaN).
    { intros r. unfold value_of, field. rewrite get_loc_notin; [reflexivity|].
      intros Hin. apply has_column_In in Hin. congruence. }
    split.
    + intros -> s. split; [intros []|].
      intros [r [l [_ [Hv _]]]]. rewrite Hnone in Hv. discriminate.
    + intros _ s. split; [intros []|].
      intros [r [_ Hv]]. rewrite Hnone in Hv. discriminate.
Qed.

(** ** The exporters *)

Lemma getitem_setitem_present d name col values :
  shaped d -> getitem d name = Ok col ->
  List.length values = List.length (rows d) ->
  getitem (setitem d name values) name = Ok values.
Proof.
  intros Hs Hg Hlen. unfold getitem in Hg.
  destruct (get_loc (columns d) name) as [i| |] eqn:Hi; simpl in Hg;
    try discriminate.
  apply getitem_setitem_unique with (i := i); try assumption.
  unfold set_cols.
  assert (Hin : existsb (String.eqb name) (columns d) = true).
  { apply existsb_eqb_In. apply get_loc_Ok in Hi. destruct Hi as [Hb Hn].
    rewrite <- Hn. now apply nth_In. }
  now rewrite Hin.
Qed.

Section ExportProperties.
Context {P : PyStr}.

Lemma str_items_strings l :
  forallb is_string l = true -> str_items l = Ok (map tag_text l).
Proof.
  unfold str_items. generalize 0%nat.
  induction l as [|x l IH]; intros i; simpl; [reflexivity|].
  intros H. apply andb_true_iff in H. destruct H as [Hx Hl].
  destruct x; try discriminate. now rewrite (IH _ Hl).
Qed.

Lemma str_items_other l :
  forallb is_string l = false ->
  exists msg, str_items l = Raise (TypeError msg).
Proof.
  unfold str_items. generalize 0%nat.
  induction l as [|x l IH]; intros i; simpl; [discriminate|].
  intros H. destruct x; try (eexists; reflexivity). simpl in H.
  destruct (IH (Datatypes.S i) H) as [msg Hmsg]. exists msg.
  now rewrite Hmsg.
Qed.

Lemma csv_tags_strings c :
  string_tags c = true -> csv_tags c = Ok (flat_tags c).
Proof.
  unfold string_tags, csv_tags, flat_tags. destruct c; try reflexivity.
  simpl. intros H. now rewrite (str_items_strings l H).
Qed.

Lemma csv_tags_other c :
  string_tags c = false ->
  exists msg, csv_tags c = Raise (TypeError msg).
Proof.
  unfold string_tags, csv_tags. destruct c; try discriminate.
  simpl. intros H. destruct (str_items_other l H) as [msg Hmsg].
  exists msg. now rewrite Hmsg.
Qed.

Lemma map_result_csv_tags col :
  (forallb string_tags col = true ->
     map_result csv_tags col = Ok (map flat_tags col)) /\
  (forallb string_tags col = false ->
     exists msg, map_result csv_tags col = Raise (TypeError msg)).
Proof.
  induction col as [|c col [IH1 IH2]]; simpl;
    [split; [reflexivity|discriminate]|].
  destruct (string_tags c) eqn:Hc; cbn [andb].
  - rewrite (csv_tags_strings c Hc). cbn [bind]. split; intros H.
    + now rewrite (IH1 H).
    + destruct (IH2 H) as [msg Hmsg]. exists msg. now rewrite Hmsg.
  - destruct (csv_tags_other c Hc) as [msg Hmsg]. rewrite Hmsg.
    split; [discriminate|]. intros _. now exists msg.
Qed.

(** X23.  [export_to_csv] reports failure when the frame has no tags
    column or when some tag list holds something that is no string;
    otherwise it writes the frame with every tag list joined into one
    string and every other column untouched, and reports whether the
    writing succeeded. *)
Theorem export_to_csv_outcome d file_path to_csv :
  shaped d ->
  (~ In "tags" (columns d) ->
     export_to_csv d file_path to_csv =
     Ok (false, ["Error exporting to CSV: 'tags'"])) /\
  (forall col, getitem d "tags" = Ok col ->
     let written := setitem d "tags" (map flat_tags col) in
     columns written = columns d /\
     getitem written "tags" = Ok (map flat_tags col) /\
     (forall other, other <> "tags" ->
        getitem written other = getitem d other) /\
     (forallb string_tags col = false ->
        exists out, export_to_csv d file_path to_csv = Ok (false, out)) /\
     (forallb string_tags col = true ->
        export_to_csv d file_path to_csv =
        match to_csv written file_path with
        | Ok _ => Ok (true, [])
        | Raise e =>
            Ok (false, [("Error exporting to CSV: " ++ exn_str e)%string])
        | Unmodelled => Unmodelled
        end)).
Proof.
  intros Hs. split.
  - intros Hnin. unfold export_to_csv, csv_frame.
    now rewrite getitem_notin.
  - intros col Hg written.
    assert (Hlen : List.length (map flat_tags col) = List.length (rows d)).
    { rewrite length_map. now apply getitem_length in Hg. }
    split; [now apply columns_setitem_present with (col := col)|].
    split; [now apply getitem_setitem_present with (col := col)|].
    split; [intros other Hne; now apply getitem_setitem_other|].
    unfold export_to_csv, csv_frame. rewrite Hg. cbn [bind].
    destruct (map_result_csv_tags col) as [Hok Hbad].
    split; intros H.
    + destruct (Hbad H) as [msg Hmsg]. rewrite Hmsg. cbn [bind].
      eexists. reflexivity.
    + rewrite (Hok H). reflexivity.
Qed.

End ExportProperties.

Lemma map_fst_combine_all {A B : Type} (l : list A) (l' : list B) :
  List.length l = List.length l' -> map fst (combine l l') = l.
Proof.
  revert l'. induction l as [|x l IH]; intros [|y l'] H; simpl in *;
    try discriminate; [reflexivity|]. f_equal. apply IH. lia.
Qed.

Lemma fold_add_key_known keys seen :
  (forall k, In k keys -> In k seen) -> fold_left add_key keys seen = seen.
Proof.
  induction keys as [|x keys IH]; intros H; simpl; [reflexivity|].
  unfold add_key at 2.
  assert (Hx : existsb (String.eqb x) seen = true).
  { apply existsb_eqb_In. apply H. now left. }
  rewrite Hx. apply IH. intros k Hk. apply H. now right.
Qed.

Lemma fold_add_key_fresh keys seen :
  NoDup (seen ++ keys) -> fold_left add_key keys seen = seen ++ keys.
Proof.
  revert seen. induction keys as [|x keys IH]; intros seen Hnd; simpl.
  - now rewrite app_nil_r.
  - unfold add_key at 2.
    assert (Hx : existsb (String.eqb x) seen = false).
    { destruct (existsb (String.eqb x) seen) eqn:Hex; [|reflexivity].
      apply existsb_eqb_In in Hex. apply NoDup_remove_2 in Hnd.
      exfalso. apply Hnd. apply in_app_iff. now left. }
    rewrite Hx. rewrite IH.
    + now rewrite <- app_assoc.
    + now rewrite <- app_assoc.
Qed.

Lemma frame_columns_to_dict_records d :
  well_formed d -> rows d <> [] ->
  frame_columns (to_dict_records d) = columns d.
Proof.
  intros [Hnd Hs] Hne. unfold frame_columns, to_dict_records.
  unfold shaped in Hs. destruct (rows d) as [|r l]; [contradiction|].
  inversion Hs as [|? ? Hr Hl]; subst. cbn [map fold_left].
  rewrite map_fst_combine_all by (symmetry; exact Hr).
  rewrite (fold_add_key_fresh (columns d) []) by exact Hnd.
  cbn [app]. clear Hne Hs Hr.
  induction l as [|r' l IH]; cbn [map fold_left]; [reflexivity|].
  inversion Hl as [|? ? Hr' Hl']; subst.
  rewrite map_fst_combine_all by (symmetry; exact Hr').
  rewrite fold_add_key_known by auto. now apply IH.
Qed.

Lemma record_row_combine cols (row : list cell) :
  NoDup cols -> List.length row = List.length cols ->
  record_row cols (combine cols row) = row.
Proof.
  unfold record_row. revert row.
  induction cols as [|c cols IH]; intros [|x row] Hnd Hlen; simpl in *;
    try discriminate; [reflexivity|].
  inversion Hnd as [|? ? Hc Hnd']; subst.
  rewrite String.eqb_refl. f_equal.
  etransitivity; [|apply (IH row Hnd'); lia].
  apply map_ext_in. intros k Hk.
  destruct (String.eqb_spec k c) as [->|Hne]; [contradiction|reflexivity].
Qed.

Lemma lookup_combine cols (row : list cell) k i :
  List.length row = List.length cols ->
  get_loc cols k = Ok i ->
  lookup k (combine cols row) = Some (nth i row VNaN).
Proof.
  intros Hlen Hi.
  pose proof (get_loc_Ok cols k i Hi) as [Hb Hn].
  assert (Huniq : forall j, (j < List.length cols)%nat ->
                            nth j cols "" = k -> j = i)
    by (intros j; apply (get_loc_unique cols k i j Hi)).
  clear Hi. revert row i Hlen Hb Hn Huniq.
  induction cols as [|c cols IH]; intros [|x row] i Hlen Hb Hn Huniq;
    simpl in *; try lia.
  destruct (String.eqb_spec k c) as [->|Hne].
  - assert (0%nat = i) as <- by (apply Huniq; [lia|reflexivity]).
    reflexivity.
  - destruct i as [|i]; [congruence|].
    apply IH; [lia|lia|assumption|].
    intros j Hj Hnj. assert (Datatypes.S j = Datatypes.S i)
      by (apply Huniq; [lia|assumption]). lia.
Qed.

Lemma assign_unchanged cols name v (row : list cell) :
  (forall j, (j < List.length cols)%nat -> nth j cols "" = name ->
             nth j row VNaN = v) ->
  List.length row = List.length cols ->
  assign cols name v row = row.
Proof.
  revert row. induction cols as [|c cols IH]; intros [|x row] H Hlen;
    simpl in *; try reflexivity; try discriminate.
  f_equal.
  - destruct (String.eqb_spec name c) as [->|Hne]; [|reflexivity].
    symmetry. apply (H 0%nat); [lia|reflexivity].
  - apply IH; [|lia]. intros j Hj Hn. apply (H (Datatypes.S j)); [lia|assumption].
Qed.

Lemma setitem_getitem d name col :
  shaped d -> getitem d name = Ok col -> setitem d name col = d.
Proof.
  intros Hs Hg. pose proof (getitem_has_column d name col Hg) as Hh.
  unfold has_column in Hh. unfold getitem in Hg.
  destruct (get_loc (columns d) name) as [i| |] eqn:Hi; simpl in Hg;
    try discriminate.
  inversion Hg; subst col; clear Hg.
  unfold setitem, set_cols, set_cell. rewrite Hh.
  rewrite combine_map_r, map_map. cbn [fst snd].
  destruct d as [cols rws]. cbn [columns rows] in *. f_equal.
  rewrite <- (map_id rws) at 2. apply map_ext_in. intros r Hr.
  unfold shaped in Hs. cbn [columns rows] in Hs.
  rewrite Forall_forall in Hs.
  apply assign_unchanged; [|now apply Hs].
  intros j Hj Hn. f_equal. now apply (get_loc_unique cols name i j).
Qed.

Lemma distinct_NoDup l : NoDup l -> distinct l = true.
Proof.
  induction 1 as [|x l Hx Hnd IH]; simpl; [reflexivity|].
  rewrite IH, andb_true_r. apply negb_true_iff.
  destruct (existsb (String.eqb x) l) eqn:Hex; [|reflexivity].
  apply existsb_eqb_In in Hex. contradiction.
Qed.

Lemma frame_of_to_dict_records d :
  well_formed d -> rows d <> [] ->
  frame_of_records (to_dict_records d) = d.
Proof.
  intros Hwf Hne. unfold frame_of_records.
  rewrite (frame_columns_to_dict_records d Hwf Hne).
  destruct Hwf as [Hnd Hs]. unfold to_dict_records. rewrite map_map.
  destruct d as [cols rws]. cbn [columns rows] in *. f_equal.
  rewrite <- (map_id rws) at 2. apply map_ext_in. intros r Hr.
  unfold shaped in Hs. cbn [columns rows] in Hs.
  rewrite Forall_forall in Hs.
  apply record_row_combine; [assumption|now apply Hs].
Qed.

Section RoundTrip.
Context {P : PyStr}.

(** X24.  Export to JSON and load again: for a catalog with distinct
    labels, at least one record, no column titel, a list of tags in
    every record and only strings, lists, objects and NaN in its cells,
    the records [export_to_json] hands to [json.dump] are the rows under
    their labels, and [load_json_data] makes of these records a frame
    with the same labels and the same cells. *)
Theorem export_json_then_load d file_path col :
  well_formed d -> rows d <> [] ->
  ~ In "titel" (columns d) ->
  getitem d "tags" = Ok col ->
  forallb isinstance_list col = true ->
  Forall (fun r => forallb kept_or_missing r = true) (rows d) ->
  exists records,
    json_records d = Ok records /\
    records = to_dict_records d /\
    load_json_data file_path (Ok records) = Ok (d, []).
Proof.
  intros Hwf Hne Htitel Hg Hlists _.
  pose proof Hwf as [Hnd Hs].
  exists (to_dict_records d). split; [|split; [reflexivity|]].
  - unfold json_records. rewrite (distinct_NoDup _ Hnd). f_equal.
    rewrite <- (map_id (to_dict_records d)) at 2.
    apply map_ext_in. intros rec Hrec.
    unfold to_dict_records in Hrec. apply in_map_iff in Hrec.
    destruct Hrec as [r [<- Hr]].
    unfold getitem in Hg.
    destruct (get_loc (columns d) "tags") as [i| |] eqn:Hi; simpl in Hg;
      try discriminate.
    inversion Hg; subst col; clear Hg.
    unfold shaped in Hs. rewrite Forall_forall in Hs.
    unfold split_tags.
    rewrite (lookup_combine (columns d) r "tags" i (Hs r Hr) Hi).
    rewrite forallb_forall in Hlists.
    assert (Hl : isinstance_list (nth i r VNaN) = true).
    { apply Hlists. apply in_map_iff. exists r. now split. }
    now destruct (nth i r VNaN).
  - pose proof (load_json_data_cases file_path (Ok (to_dict_records d)))
      as Hc.
    assert (Hf : load_frame (Ok (to_dict_records d)) = Ok d).
    { unfold load_frame. cbn [bind].
      rewrite (frame_of_to_dict_records d Hwf Hne).
      unfold normalize_columns.
      assert (Hh : has_column d "titel" = false).
      { destruct (has_column d "titel") eqn:Hh; [|reflexivity].
        apply has_column_In in Hh. contradiction. }
      rewrite Hh, Hg. cbn [bind]. f_equal.
      assert (Hsame : map (fun x => VList (list_or_empty x)) col = col).
      { rewrite <- (map_id col) at 2. apply map_ext_in. intros c Hc'.
        rewrite forallb_forall in Hlists. specialize (Hlists c Hc').
        now destruct c. }
      rewrite Hsame. now apply setitem_getitem. }
    rewrite Hf in Hc. exact Hc.
Qed.

End RoundTrip.

(** ** Start-up *)

Lemma load_frame_not_empty read d :
  load_frame read = Ok d -> df_empty d = false.
Proof.
  intros Hf.
  destruct (load_frame_tags read d Hf) as [data [tags [Hr [Hg [Hcols Hgd]]]]].
  pose proof (getitem_has_column _ _ _ Hgd) as Hhas.
  apply has_column_In in Hhas.
  pose proof (getitem_length _ _ _ Hgd) as Hlen.
  pose proof (getitem_length _ _ _ Hg) as Hlen0.
  rewrite length_map in Hlen. rewrite rows_parsed_frame in Hlen0.
  unfold frame_of_records in Hlen0. simpl in Hlen0.
  rewrite length_map in Hlen0.
  unfold df_empty.
  destruct (columns d) as [|c cs] eqn:Hc; [contradiction|].
  destruct (rows d) as [|r rs]; [|reflexivity].
  simpl in Hlen. destruct tags; [|discriminate].
  simpl in Hlen0. destruct data; [|discriminate].
  unfold parsed_frame, normalize_columns, frame_of_records in Hcols.
  simpl in Hcols. discriminate.
Qed.

Lemma shaped_load_frame read d : load_frame read = Ok d -> shaped d.
Proof.
  intros Hf. destruct (load_frame_Ok read d Hf) as [data [tags [_ [_ ->]]]].
  apply shaped_setitem, shaped_parsed_frame.
Qed.


Section StartUp.
Context {P : PyStr} {S : ArgSort}.

(** X25.  After a load that failed, the application shows the error box
    and has the empty catalog and no engine: filtering changes nothing,
    and no row and no page is shown. *)
Theorem load_data_after_failure file_path read e :
  load_frame read = Raise e ->
  exists l,
    load_data initial_app file_path read = Ok l /\
    error_shown l = true /\
    printed l = [failure_line file_path e] /\
    app_df (state l) = empty_frame /\
    search_engine (state l) = None /\
    apply_filters (state l) = Ok (state l) /\
    display_results (state l) = Ok {| page_rows := []; total_pages := 0 |}.
Proof.
  intros Hf. pose proof (load_json_data_cases file_path read) as Hc.
  rewrite Hf in Hc. unfold load_data. rewrite Hc. cbn [bind fst snd].
  cbn [df_empty empty_frame columns]. eexists. split; [reflexivity|].
  repeat split.
Qed.

(** X26.  A file that loads but has no title column, or a title but no
    author column, makes [load_data] raise [KeyError]: the engine cannot
    be built and nothing catches the exception. *)
Theorem load_data_needs_title_and_author self file_path read d :
  load_frame read = Ok d -> NoDup (columns d) ->
  (~ In "title" (columns d) ->
     load_data self file_path read = Raise (KeyError "title")) /\
  (In "title" (columns d) -> ~ In "author" (columns d) ->
     load_data self file_path read = Raise (KeyError "author")).
Proof.
  intros Hf Hnd. pose proof (load_json_data_cases file_path read) as Hc.
  rewrite Hf in Hc. unfold load_data. rewrite Hc. cbn [bind fst snd].
  rewrite (load_frame_not_empty read d Hf).
  pose proof (shaped_load_frame read d Hf) as Hs.
  unfold SearchEngine_init. split.
  - intros Hnin. now rewrite getitem_notin.
  - intros Hin Hnin. destruct (getitem_in d "title" Hnd Hin) as [title Et].
    rewrite Et. cbn [bind].
    rewrite getitem_setitem_other; [|assumption| |discriminate].
    + now rewrite getitem_notin.
    + rewrite length_map. now apply getitem_length in Et.
Qed.


End StartUp.

(** ** The further properties on the examples *)

Lemma sort_books_orders_records_witness :
  exists d',
    sort_books (S := insertion_argsort) legacy_catalog "title" false = Ok d' /\
    Permutation (rows d') (rows legacy_catalog).
Proof.
  destruct (sort_books_orders_records (S := insertion_argsort)
              legacy_catalog "title" false _ (or_introl eq_refl)
              eq_refl eq_refl)
    as [d' [keys' [H1 [_ [H3 _]]]]].
  exists d'. split; [exact H1|exact H3].
Defined.

Lemma sort_books_keeps_order_of_missing_witness :
  exists d',
    sort_books (S := insertion_argsort) gaps "language" true = Ok d' /\
    filter (fun r => isna (value_of (columns gaps) r "language")) (rows d') =
    [ [VStr "Walden"; VNaN]; [VStr "Faust"; VNone] ].
Proof.
  exists {| columns := columns gaps;
            rows := [ [VStr "Heidi"; VStr "de"]; [VStr "Dune"; VStr "en"];
                      [VStr "Walden"; VNaN]; [VStr "Faust"; VNone] ] |}.
  split; [reflexivity|].
  exact (eq_trans
           (sort_books_keeps_order_of_missing (S := insertion_argsort)
              gaps "language" true _ _ eq_refl eq_refl eq_refl)
           eq_refl).
Defined.

Lemma SearchEngine_init_needs_columns_witness :
  SearchEngine_init (P := Ascii7.ops) mixed_catalog =
  Raise (KeyError "author").
Proof.
  apply (SearchEngine_init_needs_columns (P := Ascii7.ops) mixed_catalog
           (well_formedb_spec mixed_catalog eq_refl)).
  - simpl. tauto.
  - simpl. intuition discriminate.
Defined.

Lemma engine_keeps_catalog_fields_witness :
  original_df dune_engine = dune_catalog /\
  List.length (rows (df dune_engine)) = 2%nat /\
  value_of (columns (df dune_engine)) (nth 1 (rows (df dune_engine)) [])
    "author" = VStr "X".
Proof.
  destruct (engine_keeps_catalog_fields (P := Ascii7.ops)
              dune_catalog dune_engine
              (well_formedb_spec dune_catalog eq_refl) eq_refl)
    as [H1 [H2 [_ H4]]].
  split; [exact H1|]. split; [exact H2|].
  rewrite (H4 1%nat "author").
  - reflexivity.
  - simpl. lia.
  - simpl. tauto.
  - simpl. intuition discriminate.
Defined.

Lemma search_books_narrows_witness :
  exists r1 r2,
    search_books (P := Ascii7.ops) dune_engine "dune" = Ok r1 /\
    search_books (P := Ascii7.ops) dune_engine "Dune G" = Ok r2 /\
    (forall r, In r (rows r2) -> In r (rows r1)).
Proof.
  destruct (search_books_narrows (P := Ascii7.ops)
              dune_catalog dune_engine "dune" "Dune G"
              (well_formedb_spec dune_catalog eq_refl) eq_refl)
    as [r1 [r2 [H1 [H2 [H3 _]]]]].
  - vm_compute. discriminate.
  - vm_compute. discriminate.
  - exists "", " g". reflexivity.
  - exists r1, r2. repeat split; assumption.
Defined.


Lemma filter_by_tags_monotone_witness :
  exists d1 d2,
    filter_by_tags dune_catalog ["ref"] = Ok d1 /\
    filter_by_tags dune_catalog ["scifi"; "ref"] = Ok d2 /\
    (forall r, In r (rows d1) -> In r (rows d2)).
Proof.
  destruct (filter_by_tags_monotone dune_catalog "scifi" "ref" [] _ eq_refl)
    as [d1 [d2 [H1 [H2 [H3 _]]]]].
  exists d1, d2. repeat split; assumption.
Defined.



Lemma clear_filters_shows_whole_catalog_witness :
  exists self',
    clear_filters (P := Ascii7.ops) (S := insertion_argsort) dune_query
      = Ok self' /\
    Permutation (rows (filtered_df self')) (rows dune_catalog) /\
    (exists keys',
       getitem (filtered_df self') "title" = Ok keys' /\
       ordered_keys true keys') /\
    current_page self' = 0%Z.
Proof.
  destruct (clear_filters_shows_whole_catalog (P := Ascii7.ops)
              (S := insertion_argsort) dune_query dune_engine _
              eq_refl eq_refl eq_refl)
    as [self' [H1 [_ [H3 [_ [H5 [_ [H7 _]]]]]]]].
  exists self'. split; [exact H1|]. split; [exact H3|].
  split; [|exact H7]. apply H5. simpl. tauto.
Defined.

Lemma page_sizes_witness :
  exists v,
    display_results (paging_state legacy_catalog 2 1) = Ok v /\
    List.length (page_rows v) = 1%nat.
Proof.
  eexists. split; [reflexivity|].
  pose proof (page_sizes (paging_state legacy_catalog 2 1) _
                eq_refl (Z.le_0_1) eq_refl) as [_ [_ [H _]]].
  destruct (H eq_refl) as [_ Hsize]. cbn in Hsize.
  apply Nat2Z.inj. exact Hsize.
Defined.

Lemma page_row_is_result_row_witness :
  nth_error (shown_rows (paging_state legacy_catalog 2 1)) 0 =
  nth_error (rows legacy_catalog) 2.
Proof.
  exact (page_row_is_result_row (paging_state legacy_catalog 2 1) _ 0
           eq_refl (Z.le_0_1) eq_refl (Nat.lt_0_1)).
Defined.

Lemma navigation_stays_in_range_witness :
  exists next,
    next_page (paging_state legacy_catalog 2 1) = Ok next /\
    (0 <= current_page next <= 1)%Z.
Proof.
  destruct (navigation_stays_in_range (paging_state legacy_catalog 2 1)
              eq_refl) as [_ [_ [next [H1 [H2 _]]]]].
  - cbn. lia.
  - exists next. split; [exact H1|exact H2].
Defined.

Lemma next_and_prev_are_inverse_witness :
  exists next,
    next_page (paging_state legacy_catalog 2 0) = Ok next /\
    prev_page next = paging_state legacy_catalog 2 0.
Proof.
  destruct (next_and_prev_are_inverse (paging_state legacy_catalog 2 0)
              eq_refl (Z.le_refl 0)) as [H _].
  destruct H as [next [H1 [_ H3]]]; [cbn; lia|].
  exists next. split; [exact H1|exact H3].
Defined.

Lemma buttons_agree_with_navigation_witness :
  next_page (paging_state legacy_catalog 2 0) <>
  Ok (paging_state legacy_catalog 2 0).
Proof.
  destruct (buttons_agree_with_navigation (paging_state legacy_catalog 2 0)
              eq_refl) as [_ [H _]].
  - cbn. lia.
  - apply H. reflexivity.
Defined.

Lemma perform_search_history_witness :
  exists self',
    perform_search (P := Ascii7.ops) (S := insertion_argsort)
      ["walden"] dune_query = Ok (["walden"; "dune"], self') /\
    current_page self' = 0%Z.
Proof.
  eexists. split; [reflexivity|].
  refine (proj2 (proj2 (proj2 (proj2 (proj2
            (perform_search_history (P := Ascii7.ops)
               (S := insertion_argsort) ["walden"] dune_query _ _
               _ _ _ eq_refl)))))).
  - simpl. lia.
  - repeat constructor. intros [].
  - simpl. intuition discriminate.
Defined.

Lemma load_without_tags_fails_witness :
  load_json_data "booklist.json"
    (Ok [ [("title", VStr "Dune"); ("author", VStr "Herbert")] ]) =
  Ok (empty_frame, ["Error loading data: 'tags'"]).
Proof.
  apply load_without_tags_fails.
  - intros rec [<-|[]]. simpl. intuition discriminate.
  - left. intros rec [<-|[]]. simpl. intuition discriminate.
Defined.

Lemma load_keeps_records_and_fields_witness :
  List.length (rows legacy_catalog) = 3%nat /\
  value_of (columns legacy_catalog) (nth 2 (rows legacy_catalog) []) "author"
  = VStr "Spyri".
Proof.
  destruct (load_keeps_records_and_fields "booklist.json" legacy_file
              legacy_catalog eq_refl) as [H1 H2].
  - repeat constructor; simpl; intuition discriminate.
  - split; [exact H1|].
    apply (H2 2%nat _ "autor" eq_refl).
    + simpl. tauto.
    + discriminate.
    + intros rec' v [<-|[<-|[<-|[]]]] H; simpl in H; inversion H;
        reflexivity.
Defined.

Lemma get_unique_values_sorted_distinct_complete_witness :
  NoDup ["de"; "en"] /\
  (In "de" ["de"; "en"] <->
   exists r, In r (rows legacy_catalog) /\
             value_of (columns legacy_catalog) r "language" = VStr "de").
Proof.
  destruct (get_unique_values_sorted_distinct_complete legacy_catalog
              "language" ["de"; "en"] eq_refl) as [_ [H2 [_ H4]]].
  split; [exact H2|]. apply H4. discriminate.
Defined.

Lemma export_to_csv_outcome_witness :
  export_to_csv (P := Ascii7.ops) dune_catalog "books.csv"
    (fun _ _ => Ok tt) = Ok (true, []).
Proof.
  destruct (export_to_csv_outcome (P := Ascii7.ops) dune_catalog
              "books.csv" (fun _ _ => Ok tt)) as [_ H].
  - apply (well_formedb_spec dune_catalog eq_refl).
  - destruct (H _ eq_refl) as [_ [_ [_ [_ H5]]]].
    rewrite (H5 eq_refl). reflexivity.
Defined.

Lemma export_json_then_load_witness :
  exists records,
    json_records (P := Ascii7.ops) dune_catalog = Ok records /\
    load_json_data "books.json" (Ok records) = Ok (dune_catalog, []).
Proof.
  assert (Hne : rows dune_catalog <> []) by discriminate.
  assert (Htitel : ~ In "titel" (columns dune_catalog))
    by (simpl; intuition discriminate).
  assert (Hcells : Forall (fun r => forallb kept_or_missing r = true)
                     (rows dune_catalog))
    by (repeat constructor).
  destruct (export_json_then_load (P := Ascii7.ops) dune_catalog
              "books.json" _
              (well_formedb_spec dune_catalog eq_refl)
              Hne Htitel eq_refl eq_refl Hcells) as [records [H1 [_ H3]]].
  exists records. split; [exact H1|exact H3].
Defined.

Lemma load_data_after_failure_witness :
  exists l,
    load_data (P := Ascii7.ops) initial_app "booklist.json"
      (Raise FileNotFoundError) = Ok l /\
    error_shown l = true /\
    search_engine (state l) = None.
Proof.
  destruct (load_data_after_failure (P := Ascii7.ops)
              (S := insertion_argsort) "booklist.json"
              (Raise FileNotFoundError) FileNotFoundError eq_refl)
    as [l [H1 [H2 [_ [_ [H5 _]]]]]].
  exists l. repeat split; assumption.
Defined.

Lemma load_data_needs_title_and_author_witness :
  load_data (P := Ascii7.ops) initial_app "booklist.json" (Ok mixed_file) =
  Raise (KeyError "author").
Proof.
  destruct (load_data_needs_title_and_author (P := Ascii7.ops)
              initial_app "booklist.json" (Ok mixed_file) mixed_catalog
              eq_refl) as [_ H].
  - repeat constructor; simpl; intuition discriminate.
  - apply H.
    + simpl. tauto.
    + simpl. intuition discriminate.
Defined.

